(** * Viral content idea generator: scoring, normalisation, ranking, store

    A shallow embedding of the pipeline of the repository
    (instagram.py, viral_identification.py, database.py) and the
    properties its specification states about it.

    Python values are modelled as follows.
    - [int] is [Z]; [float] is IEEE-754 binary64, written with the
      standard library's [spec_float] at precision 53 and [emax] 1024.
    - [str] is [string] (ASCII text); a dict with string keys is a
      [gmap string value]; a list is a [list].
    - A call that raises is an explicit result ([None], or [Err] in the
      store).
    - The clock, the random source and the file system are arguments. *)

From Stdlib Require Import ZArith QArith Ascii Floats.SpecFloat.
From stdpp Require Import gmap strings list fin_maps pretty sorting.

Close Scope Q_scope.
Local Open Scope Z_scope.

(** ** Python numbers *)

Module Py.

Definition prec : Z := 53.
Definition emax : Z := 1024.

Abbreviation float := spec_float.

(** A Python number: an arbitrary-precision [int] or a binary64 [float]. *)
Inductive num :=
  | NInt (n : Z)
  | NFloat (f : float).

(** [float(n)] for an int: the nearest binary64 value, ties to even;
    [OverflowError] ([None]) when the int is too large. *)
Definition float_of_int (n : Z) : option float :=
  match binary_normalize prec emax n 0 false with
  | S754_infinity _ | S754_nan => None
  | f => Some f
  end.

(** Sign and magnitude of a non-zero int as an unnormalised operand of the
    division core, which accepts mantissas of any width. *)
Definition raw_of_int (n : Z) : float :=
  match n with
  | Z0 => S754_zero false
  | Zpos p => S754_finite false p 0
  | Zneg p => S754_finite true p 0
  end.

(** [a / b] on two ints: the correctly rounded quotient;
    [ZeroDivisionError] or [OverflowError] is [None]. *)
Definition int_truediv (a b : Z) : option float :=
  if b =? 0 then None
  else match a with
       | Z0 => Some (S754_zero (b <? 0))
       | _ => match SFdiv prec emax (raw_of_int a) (raw_of_int b) with
              | S754_infinity _ | S754_nan => None
              | f => Some f
              end
       end.

Definition is_zero (f : float) : bool :=
  match f with S754_zero _ => true | _ => false end.

(** [x / y] on two floats; [ZeroDivisionError] is [None]. *)
Definition float_truediv (x y : float) : option float :=
  if is_zero y then None else Some (SFdiv prec emax x y).

(** [x / y] on two numbers: two ints divide exactly and round once; a
    mixed pair converts the int operand first. *)
Definition truediv (x y : num) : option float :=
  match x, y with
  | NInt a, NInt b => int_truediv a b
  | NInt a, NFloat g => f ← float_of_int a; float_truediv f g
  | NFloat f, NInt b => g ← float_of_int b; float_truediv f g
  | NFloat f, NFloat g => float_truediv f g
  end.

(** The exact value of a number on the extended real line. *)
Inductive ext :=
  | ENaN
  | EInf (neg : bool)
  | EFin (q : Q).

Definition dyadic (m e : Z) : Q :=
  match e with
  | Zneg k => Qmake m (2 ^ k)%positive
  | _ => Qmake (m * 2 ^ e) 1
  end.

Definition ext_of_float (f : float) : ext :=
  match f with
  | S754_nan => ENaN
  | S754_infinity s => EInf s
  | S754_zero _ => EFin (Qmake 0 1)
  | S754_finite s m e => EFin (dyadic (if s then Zneg m else Zpos m) e)
  end.

Definition ext_of (x : num) : ext :=
  match x with
  | NInt n => EFin (Qmake n 1)
  | NFloat f => ext_of_float f
  end.

(** Comparison is exact, also between an int and a float, and false as
    soon as one side is NaN. *)
Definition ext_lt (a b : ext) : bool :=
  match a, b with
  | ENaN, _ | _, ENaN => false
  | EInf true, EInf true => false
  | EInf true, _ => true
  | _, EInf true => false
  | EInf false, _ => false
  | _, EInf false => true
  | EFin p, EFin q => match Qcompare p q with Lt => true | _ => false end
  end.

Definition ext_eq (a b : ext) : bool :=
  match a, b with
  | EInf s, EInf t => Bool.eqb s t
  | EFin p, EFin q => Qeq_bool p q
  | _, _ => false
  end.

Definition ext_le (a b : ext) : bool := ext_lt a b || ext_eq a b.

Definition lt (x y : num) : bool := ext_lt (ext_of x) (ext_of y).
Definition eq (x y : num) : bool := ext_eq (ext_of x) (ext_of y).
Definition gt (x y : num) : bool := lt y x.
Definition ge (x y : num) : bool := lt y x || eq x y.

(** Round half to even of the rational [n / d], [d] positive. *)
Definition round_half_even (n : Z) (d : Z) : Z :=
  let q := n / d in
  let r := n mod d in
  match 2 * r ?= d with
  | Lt => q
  | Gt => q + 1
  | Eq => if Z.even q then q else q + 1
  end.

(** [round(x, 1)] on a float: the float nearest to the exact value of [x]
    rounded half-even to one decimal place. Zeros, infinities, NaN and
    floats that are integers come back unchanged. *)
Definition round1_float (f : float) : float :=
  match f with
  | S754_finite s m (Zneg k) =>
      let tenths := round_half_even (10 * Zpos m) (Zpos (2 ^ k)%positive) in
      match tenths with
      | Zpos t => SFdiv prec emax (S754_finite s t 0) (S754_finite false 10 0)
      | _ => S754_zero s
      end
  | _ => f
  end.

(** [round(x, 1)]: an int is returned as it is. *)
Definition round1 (x : num) : num :=
  match x with
  | NInt n => NInt n
  | NFloat f => NFloat (round1_float f)
  end.

(** [int(x)] on a finite float truncates toward zero. *)
Definition trunc_float (f : float) : option Z :=
  match f with
  | S754_zero _ => Some 0
  | S754_finite s m e =>
      let a := match e with
               | Zneg k => Zpos m / Zpos (2 ^ k)%positive
               | _ => Zpos m * 2 ^ e
               end in
      Some (if s then - a else a)
  | _ => None
  end.

(** The literals [1.0] and [2.0]. *)
Definition one : float := S754_finite false 4503599627370496 (-52).
Definition two : float := S754_finite false 4503599627370496 (-51).

End Py.

Import Py.

(** ** Records

    A video record is a Python dict from field names to scalars. *)

Inductive value :=
  | VNone
  | VBool (b : bool)
  | VInt (n : Z)
  | VFloat (f : float)
  | VStr (s : string).

Abbreviation video := (gmap string value).

Definition value_of_num (x : num) : value :=
  match x with
  | NInt n => VInt n
  | NFloat f => VFloat f
  end.

#[global] Instance float_eq_dec : EqDecision float.
Proof. solve_decision. Defined.

#[global] Instance num_eq_dec : EqDecision num.
Proof. solve_decision. Defined.

#[global] Instance value_eq_dec : EqDecision value.
Proof. solve_decision. Defined.

(** ** instagram.py: the scoring engine

    youtube.py, tiktok.py and facebook.py carry the same two functions.
    [None] is a run that raises: a record whose [views] is missing
    (KeyError), null or a string (TypeError), or an int too large for a
    float (OverflowError). The model is one of integer views: a float
    among the views is summed and divided by the code without a raise,
    with a rounding that depends on the order and on how [sum] adds
    floats, and is left out; [views_of] answers [None] for it, and the
    theorems below that rest on a raise name the values that raise, the
    others are stated for integer views. *)

Module Instagram.

(** [video["views"]] as the integer that [sum] and [/] take: an [int],
    or a [bool], which Python counts as 1 or 0. *)
Definition views_of (v : video) : option Z :=
  match v !! "views" with
  | Some (VInt n) => Some n
  | Some (VBool b) => Some (if b then 1 else 0)
  | _ => None
  end.

(** [sum(video["views"] for video in videos)], from the start value. *)
Fixpoint sum_views (acc : Z) (videos : list video) : option Z :=
  match videos with
  | [] => Some acc
  | v :: rest => n ← views_of v; sum_views (acc + n) rest
  end.

Definition calculate_average_views (videos : list video) : option num :=
  match videos with
  | [] => Some (NInt 0)
  | _ =>
      total_views ← sum_views 0 videos;
      NFloat <$> int_truediv total_views (Z.of_nat (length videos))
  end.

(** [video["views"] / avg_views if avg_views > 0 else 0] *)
Definition ratio_of (avg_views : num) (v : video) : option num :=
  if gt avg_views (NInt 0)
  then n ← views_of v; NFloat <$> truediv (NInt n) avg_views
  else Some (NInt 0).

(** The record after [video["performance_ratio"] = round(ratio, 1)]. *)
Definition with_ratio (ratio : num) (v : video) : video :=
  <["performance_ratio" := value_of_num (round1 ratio)]> v.

(** The loop body appends to [viral_videos]; a raise aborts the loop. *)
Fixpoint viral_loop (avg_views min_ratio : num) (viral_videos : list video)
    (videos : list video) : option (list video) :=
  match videos with
  | [] => Some viral_videos
  | v :: rest =>
      ratio ← ratio_of avg_views v;
      if ge ratio min_ratio
      then viral_loop avg_views min_ratio
             (viral_videos ++ [with_ratio ratio v]) rest
      else viral_loop avg_views min_ratio viral_videos rest
  end.

Definition identify_viral_videos (videos : list video) (min_ratio : num)
    : option (list video) :=
  match videos with
  | [] => Some []
  | _ =>
      avg_views ← calculate_average_views videos;
      viral_loop avg_views min_ratio [] videos
  end.

(** The default threshold, [min_ratio=2.0]. *)
Definition default_min_ratio : num := NFloat two.

End Instagram.


(** ** Library behaviour shared by the modules below *)

Module Lib.

(** [dict.get(key, default)] *)
Definition get (d : video) (key : string) (dflt : value) : value :=
  default dflt (d !! key).

(** [dict.get(key)], which answers [None] for a missing key. *)
Definition get_none (d : video) (key : string) : value :=
  get d key VNone.

(** [list.sort(key=..., reverse=True)] on numeric keys. The keys are
    computed once per element and compared with [<] only; the sort is
    stable, also when reversed. It is modelled by a stable insertion
    sort: each element, taken from the right, goes in front of the first
    element it is not smaller than. *)
Fixpoint insert_desc {A} (x : num * A) (sorted : list (num * A))
    : list (num * A) :=
  match sorted with
  | [] => [x]
  | y :: rest =>
      if lt x.1 y.1 then y :: insert_desc x rest else x :: y :: rest
  end.

Definition sort_desc {A} (l : list (num * A)) : list (num * A) :=
  foldr insert_desc [] l.

(** [l[:count]], with Python's reading of a negative bound. *)
Definition slice_to {A} (count : Z) (l : list A) : list A :=
  if count <? 0
  then take (Z.to_nat (Z.of_nat (length l) + count)) l
  else take (Z.to_nat count) l.

(** A JSON document as these programs read it: an array of flat
    records, or something that is not a list. *)
Inductive json :=
  | JList (records : list video)
  | JObject (keys : list string)
  | JScalar (v : value).

(** What loading a file raises when it is neither [FileNotFoundError]
    nor [JSONDecodeError]: [open] fails with another [OSError] (a
    directory, no permission), the bytes are not UTF-8 text and [read]
    raises [UnicodeDecodeError], or the document nests deeper than the
    parser recurses and [json.load] raises [RecursionError]. *)
Inductive read_error :=
  | OSError
  | UnicodeDecodeError
  | RecursionError.

(** A path holds a JSON document, text that [json.load] rejects with
    [JSONDecodeError], or a file whose loading raises another error. A
    path absent from the map raises [FileNotFoundError]. *)
Inductive file :=
  | FJson (doc : json)
  | FInvalid
  | FUnreadable (e : read_error).

Abbreviation filesystem := (gmap string file).

(** [save_to_json(data, filename)] *)
Definition save_to_json (data : list video) (filename : string)
    (fs : filesystem) : filesystem :=
  <[filename := FJson (JList data)]> fs.

End Lib.

Import Lib.

(** ** viral_identification.py *)

Module ViralIdentification.

(** [None]: [open] or [json.load] raised an error the function does not
    handle. *)
Definition load_json_data (fs : filesystem) (filename : string)
    : option json :=
  match fs !! filename with
  | Some (FJson doc) => Some doc
  | Some FInvalid | None => Some (JList [])
  | Some (FUnreadable _) => None
  end.

(** What [list.extend] appends: the records of an array, the keys of an
    object, the characters of a string. *)
Inductive item :=
  | Rec (v : video)
  | Str (s : string).

Definition truthy (doc : json) : bool :=
  match doc with
  | JList records => negb (bool_decide (records = []))
  | JObject keys => negb (bool_decide (keys = []))
  | JScalar VNone => false
  | JScalar (VBool b) => b
  | JScalar (VInt n) => negb (n =? 0)
  | JScalar (VFloat f) => negb (is_zero f)
  | JScalar (VStr s) => negb (bool_decide (s = ""))
  end.

Fixpoint chars (s : string) : list string :=
  match s with
  | EmptyString => []
  | String c rest => String c EmptyString :: chars rest
  end.

(** [None]: the value is not iterable and [extend] raises [TypeError]. *)
Definition items_of (doc : json) : option (list item) :=
  match doc with
  | JList records => Some (Rec <$> records)
  | JObject keys => Some (Str <$> keys)
  | JScalar (VStr s) => Some (Str <$> chars s)
  | JScalar _ => None
  end.

Definition platforms : list string :=
  ["instagram"; "youtube"; "tiktok"; "facebook"].

Definition platform_file (data_dir platform : string) : string :=
  data_dir +:+ "/top_" +:+ platform +:+ "_viral_videos.json".

(** One turn of the loop; every exception is caught and the platform
    then contributes nothing. *)
Definition combine_step (fs : filesystem) (data_dir : string)
    (all_viral_videos : list item) (platform : string) : list item :=
  match load_json_data fs (platform_file data_dir platform) with
  | Some videos =>
      if truthy videos
      then match items_of videos with
           | Some its => all_viral_videos ++ its
           | None => all_viral_videos
           end
      else all_viral_videos
  | None => all_viral_videos
  end.

Definition combine_platform_videos (fs : filesystem) (data_dir : string)
    : list item :=
  foldl (combine_step fs data_dir) [] platforms.

(** The creator chain of the normaliser. *)
Definition creator_of (v : video) : value :=
  match v !! "profile", v !! "channel_id", v !! "username", v !! "page_id" with
  | Some c, _, _, _ => c
  | None, Some c, _, _ => c
  | None, None, Some c, _ => c
  | None, None, None, Some c => c
  | None, None, None, None => VStr "Unknown Creator"
  end.

(** The body of the loop; [now] is [datetime.now().isoformat()] as read
    in this turn. *)
Definition normalize_video (now : string) (v : video) : video :=
  let normalized_video : video :=
    <["post_date" := get v "post_date" (VStr now)]>
    (<["performance_ratio" := get v "performance_ratio" (VFloat one)]>
    (<["views" := get v "views" (VInt 0)]>
    (<["thumbnail" := get v "thumbnail" (VStr "")]>
    (<["url" := get v "url" (VStr "")]>
    (<["title" := get v "title" (VStr "Untitled Video")]>
    (<["platform" := get v "platform" (VStr "unknown")]>
    (<["id" := get v "id" (VStr "")]> ∅))))))) in
  let normalized_video :=
    if bool_decide (get_none v "platform" = VStr "youtube")
    then <["videoId" := get v "videoId" (get v "id" (VStr ""))]> normalized_video
    else normalized_video in
  <["creator" := creator_of v]> normalized_video.

(** [clock i] is the reading of the clock in turn [i] of the loop. *)
Fixpoint normalize_from (clock : nat → string) (i : nat)
    (videos : list video) : list video :=
  match videos with
  | [] => []
  | v :: rest => normalize_video (clock i) v :: normalize_from clock (S i) rest
  end.

Definition normalize_video_data (clock : nat → string)
    (videos : list video) : list video :=
  normalize_from clock 0 videos.

(** [v.get("performance_ratio", 0)] as a number; [None] when the value
    cannot be compared with a number ([TypeError]). *)
Definition ratio_key (v : video) : option num :=
  match v !! "performance_ratio" with
  | None => Some (NInt 0)
  | Some (VInt n) => Some (NInt n)
  | Some (VBool b) => Some (NInt (if b then 1 else 0))
  | Some (VFloat f) => Some (NFloat f)
  | Some _ => None
  end.

(** The records with their sort keys; [None] when a key raises. *)
Definition keyed (videos : list video) : option (list (num * video)) :=
  mapM (λ v, k ← ratio_key v; Some (k, v)) videos.

Definition select_top_viral_videos (videos : list video) (count : Z)
    (min_ratio : num) : option (list video) :=
  kvs ← keyed videos;
  let viral_videos := filter (λ kv, ge kv.1 min_ratio = true) kvs in
  let viral_videos := sort_desc viral_videos in
  Some (slice_to count (snd <$> viral_videos)).

Definition daily_file (data_dir : string) (day_offset : Z) : string :=
  data_dir +:+ "/videos-" +:+ pretty day_offset +:+ ".json".

Definition sample_file (data_dir : string) : string :=
  data_dir +:+ "/sample-videos.json".

Definition generate_daily_data (top_videos : list video) (data_dir : string)
    (day_offset : Z) (fs : filesystem) : filesystem :=
  let fs := save_to_json top_videos (daily_file data_dir day_offset) fs in
  if day_offset =? 0
  then save_to_json top_videos (sample_file data_dir) fs
  else fs.

(** What the random source yields in one turn of the sample loop:
    [random.choice(platforms)], [random.randint(10000, 200000)],
    [random.uniform(2.1, 15.0)], the characters joined into the video
    id, and the ISO text of the randomised post date. *)
Inductive platform := Instagram | Youtube | Tiktok | Facebook.

Record draw := {
  dr_platform : platform;
  dr_base_views : Z;
  dr_uniform : float;
  dr_video_id : string;
  dr_post_date : string
}.

Definition platform_name (p : platform) : string :=
  match p with
  | Instagram => "instagram"
  | Youtube => "youtube"
  | Tiktok => "tiktok"
  | Facebook => "facebook"
  end.

(** [platform.title()] *)
Definition platform_title (p : platform) : string :=
  match p with
  | Instagram => "Instagram"
  | Youtube => "Youtube"
  | Tiktok => "Tiktok"
  | Facebook => "Facebook"
  end.

Definition sample_url (p : platform) (video_id : string) : string :=
  "https://www." +:+ platform_name p +:+ ".com/"
  +:+ match p with Facebook => "" | _ => "@" end
  +:+ match p with Facebook => "reel/" | _ => "" end
  +:+ match p with Youtube => "shorts/" | _ => "" end
  +:+ video_id.

(** One sample record; [None] when [int(...)] raises. *)
Definition sample_video (i : nat) (d : draw) : option (num * video) :=
  let p := dr_platform d in
  let performance_ratio := round1_float (dr_uniform d) in
  base ← float_of_int (dr_base_views d);
  views ← trunc_float (SFmul prec emax base performance_ratio);
  let video : video :=
    <["creator" := VStr (platform_title p +:+ "Creator" +:+ pretty i)]>
    (<["post_date" := VStr (dr_post_date d)]>
    (<["performance_ratio" := VFloat performance_ratio]>
    (<["views" := VInt views]>
    (<["thumbnail" := VStr ("https://picsum.photos/seed/" +:+ platform_name p
                            +:+ "_" +:+ pretty i +:+ "/500/500")]>
    (<["url" := VStr (sample_url p (dr_video_id d))]>
    (<["title" := VStr ("Viral Self-Improvement Video #" +:+ pretty (S i))]>
    (<["platform" := VStr (platform_name p)]>
    (<["id" := VStr (dr_video_id d)]> ∅)))))))) in
  let video :=
    match p with
    | Youtube => <["videoId" := VStr (dr_video_id d)]> video
    | _ => video
    end in
  Some (NFloat performance_ratio, video).

(** [rng i] is what the random source yields in turn [i]. *)
Definition generate_sample_data (rng : nat → draw) (data_dir : string)
    (count : nat) (fs : filesystem) : option (list video) * filesystem :=
  match mapM (λ i, sample_video i (rng i)) (seq 0 count) with
  | None => (None, fs)
  | Some sample_videos =>
      let sample_videos := snd <$> sort_desc sample_videos in
      let fs := save_to_json sample_videos (sample_file data_dir) fs in
      let fs := save_to_json sample_videos (daily_file data_dir 0) fs in
      (Some sample_videos, fs)
  end.

(** The records of the pool; [None] when an element is not a dict and
    [video.get] raises [AttributeError]. *)
Definition records_of (pool : list item) : option (list video) :=
  mapM (λ it, match it with Rec v => Some v | Str _ => None end) pool.

(** The arguments a caller may leave out: [generate_samples] is [None]
    when the caller does not pass it, and then takes its default,
    [True]. The result is the returned list ([None] for a raise) and
    the files as the run leaves them. *)
Definition identify_viral_videos (clock : nat → string) (rng : nat → draw)
    (data_dir : string) (generate_samples : option bool) (fs : filesystem)
    : option (list video) * filesystem :=
  let generate_samples := default true generate_samples in
  let all_videos := combine_platform_videos fs data_dir in
  if bool_decide (all_videos = []) && generate_samples
  then generate_sample_data rng data_dir 10 fs
  else
    match records_of all_videos with
    | None => (None, fs)
    | Some records =>
        let normalized_videos := normalize_video_data clock records in
        match select_top_viral_videos normalized_videos 10 (NFloat two) with
        | None => (None, fs)
        | Some top_videos =>
            (Some top_videos, generate_daily_data top_videos data_dir 0 fs)
        end
    end.

End ViralIdentification.

(** ** database.py

    The store is the content of the two tables the pipeline writes, in
    row order, as the connection sees it. What SQLite does with a
    statement is written out: [INSERT OR REPLACE] removes the row that
    holds the same key and appends the new one; a NULL in a [NOT NULL]
    column aborts the statement with [IntegrityError]; a NULL primary key
    never conflicts; foreign keys are not enforced. The binding of the
    parameters is not part of the model: [sqlite3] raises
    [OverflowError] for an integer outside 64 bits before the statement
    runs and stores a NaN as NULL, and a key column of TEXT affinity
    stores a number as its text. The statements about the store are
    therefore made for rows whose values SQLite binds as they are
    ([row_binds]) and, where keys are compared, for ids that are strings
    ([accepted]). The [profiles] table is written by [add_profile] only
    and is left out. *)

Module Database.

Inductive exn :=
  | IntegrityError
  | OverflowError
  | ReadError (e : read_error).

Inductive result (A : Type) :=
  | Ok (a : A)
  | Err (e : exn).
Arguments Ok {A} a.
Arguments Err {A} e.

Record video_row := {
  v_id : value;
  v_platform : value;
  v_profile_id : value;
  v_title : value;
  v_url : value;
  v_thumbnail : value;
  v_views : value;
  v_performance_ratio : value;
  v_post_date : value;
  v_collection_date : value
}.

Record ranking_row := {
  r_date : string;
  r_video_id : value;
  r_rank : Z
}.

Record database := {
  videos : list video_row;
  daily_top_videos : list ranking_row
}.

#[global] Instance read_error_eq_dec : EqDecision read_error.
Proof. solve_decision. Defined.

#[global] Instance exn_eq_dec : EqDecision exn.
Proof. solve_decision. Defined.

#[global] Instance result_eq_dec {A} `{EqDecision A} : EqDecision (result A).
Proof. solve_decision. Defined.

#[global] Instance video_row_eq_dec : EqDecision video_row.
Proof. solve_decision. Defined.

#[global] Instance ranking_row_eq_dec : EqDecision ranking_row.
Proof. solve_decision. Defined.

#[global] Instance database_eq_dec : EqDecision database.
Proof. solve_decision. Defined.

(** A store operation: it reads and writes the store and returns or
    raises. The store that comes back after a raise holds what the
    statements before it wrote. *)
Definition M (A : Type) : Type := database → result A * database.

Definition ret {A} (a : A) : M A := λ db, (Ok a, db).
Definition raise {A} (e : exn) : M A := λ db, (Err e, db).
Definition bind {A B} (m : M A) (k : A → M B) : M B :=
  λ db, match m db with
        | (Ok a, db') => k a db'
        | (Err e, db') => (Err e, db')
        end.

Notation "x ←ᴹ m ; k" := (bind m (λ x, k))
  (at level 20, m at level 100, k at level 200, only parsing).
Notation "m ;ᴹ k" := (bind m (λ _, k))
  (at level 100, k at level 200, only parsing, right associativity).

(** The clock of one store operation: the proleptic Gregorian ordinal of
    the current date, and [datetime.now().isoformat()]. *)
Record clock := {
  today : Z;
  now_iso : string
}.

(** *** Dates: [date.isoformat()] from the ordinal, as the standard
    library computes it. *)

Definition days_before_month (month : Z) : Z :=
  match month with
  | 1 => 0 | 2 => 31 | 3 => 59 | 4 => 90 | 5 => 120 | 6 => 151
  | 7 => 181 | 8 => 212 | 9 => 243 | 10 => 273 | 11 => 304 | 12 => 334
  | _ => -1
  end.

Definition days_in_month (month : Z) : Z :=
  match month with
  | 2 => 28
  | 4 | 6 | 9 | 11 => 30
  | 1 | 3 | 5 | 7 | 8 | 10 | 12 => 31
  | _ => -1
  end.

Definition ord2ymd (ordinal : Z) : Z * Z * Z :=
  let n := ordinal - 1 in
  let n400 := n / 146097 in
  let n := n mod 146097 in
  let n100 := n / 36524 in
  let n := n mod 36524 in
  let n4 := n / 1461 in
  let n := n mod 1461 in
  let n1 := n / 365 in
  let n := n mod 365 in
  let year := n400 * 400 + 1 + n100 * 100 + n4 * 4 + n1 in
  if (n1 =? 4) || (n100 =? 4) then (year - 1, 12, 31)
  else
    let leapyear := (n1 =? 3) && (negb (n4 =? 24) || (n100 =? 3)) in
    let month := Z.shiftr (n + 50) 5 in
    let preceding :=
      days_before_month month
      + (if (2 <? month) && leapyear then 1 else 0) in
    if n <? preceding
    then
      let month := month - 1 in
      let preceding :=
        preceding
        - (days_in_month month
           + (if (month =? 2) && leapyear then 1 else 0)) in
      (year, month, n - preceding + 1)
    else (year, month, n - preceding + 1).

(** ["%0<width>d"] on a non-negative number. *)
Definition zero_pad (width : nat) (n : Z) : string :=
  let digits := pretty n in
  String.concat "" (replicate (width - String.length digits) "0") +:+ digits.

Definition isoformat (ordinal : Z) : string :=
  let '(y, m, d) := ord2ymd ordinal in
  zero_pad 4 y +:+ "-" +:+ zero_pad 2 m +:+ "-" +:+ zero_pad 2 d.

(** [date.min] and [date.max] as ordinals. *)
Definition min_ordinal : Z := 1.
Definition max_ordinal : Z := 3652059.

(** *** Strings *)

(** [s.split(sep)] for a one-character separator. *)
Fixpoint split_on (sep : ascii) (s : string) : list string :=
  match s with
  | EmptyString => [EmptyString]
  | String c rest =>
      let parts := split_on sep rest in
      if bool_decide (c = sep) then EmptyString :: parts
      else String c (List.hd EmptyString parts) :: List.tl parts
  end.

(** [s.startswith(p)] *)
Fixpoint startswith (p s : string) : bool :=
  match p, s with
  | EmptyString, _ => true
  | String a p', String b s' => bool_decide (a = b) && startswith p' s'
  | String _ _, EmptyString => false
  end.

(** [s.endswith(p)] *)
Definition endswith (p s : string) : bool :=
  startswith (String.rev p) (String.rev s).

(** [os.path.basename(path)] *)
Definition basename (path : string) : string :=
  List.last (split_on "/" path) EmptyString.

(** [os.path.join(dir, name)] *)
Definition path_join (dir name : string) : string :=
  if startswith "/" name then name
  else if bool_decide (dir = "") || endswith "/" dir then dir +:+ name
  else dir +:+ "/" +:+ name.

(** [int(s)] on ASCII text: blanks around, an optional sign, decimal
    digits with single underscores between them. [None] is
    [ValueError]. *)
Definition is_space (c : ascii) : bool :=
  let n := nat_of_ascii c in
  ((9 <=? n)%nat && (n <=? 13)%nat) || (n =? 32)%nat.

Definition digit_of (c : ascii) : option Z :=
  let n := nat_of_ascii c in
  if ((48 <=? n)%nat && (n <=? 57)%nat) then Some (Z.of_nat n - 48) else None.

Fixpoint lstrip (s : string) : string :=
  match s with
  | String c rest => if is_space c then lstrip rest else s
  | EmptyString => EmptyString
  end.

(** [rstrip] keeps a blank only when something that is not blank
    follows it. *)
Fixpoint rstrip (s : string) : string :=
  match s with
  | EmptyString => EmptyString
  | String c rest =>
      let rest' := rstrip rest in
      if is_space c && bool_decide (rest' = EmptyString) then EmptyString
      else String c rest'
  end.

Definition strip (s : string) : string := rstrip (lstrip s).

Fixpoint parse_digits (acc : Z) (after_digit : bool) (s : string)
    : option Z :=
  match s with
  | EmptyString => if after_digit then Some acc else None
  | String c rest =>
      match digit_of c with
      | Some d => parse_digits (acc * 10 + d) true rest
      | None =>
          if bool_decide (c = "_"%char) && after_digit
          then parse_digits acc false rest
          else None
      end
  end.

Definition py_int (s : string) : option Z :=
  match strip s with
  | EmptyString => None
  | String c rest =>
      if bool_decide (c = "-"%char) then Z.opp <$> parse_digits 0 false rest
      else if bool_decide (c = "+"%char) then parse_digits 0 false rest
      else parse_digits 0 false (String c rest)
  end.

(** *** The store operations *)

Definition is_platform (video_data : video) (name : string) : bool :=
  bool_decide (get video_data "platform" (VStr "unknown") = VStr name).

(** The [profile_id] chosen for the platform. *)
Definition profile_id_of (video_data : video) : value :=
  if is_platform video_data "instagram" then get_none video_data "profile"
  else if is_platform video_data "youtube" then get_none video_data "channel_id"
  else if is_platform video_data "tiktok" then get_none video_data "username"
  else if is_platform video_data "facebook" then get_none video_data "page_id"
  else get video_data "creator" (VStr "unknown").

Definition row_of (clk : clock) (video_data : video) : video_row := {|
  v_id := get_none video_data "id";
  v_platform := get video_data "platform" (VStr "unknown");
  v_profile_id := profile_id_of video_data;
  v_title := get video_data "title" (VStr "Untitled Video");
  v_url := get video_data "url" (VStr "");
  v_thumbnail := get video_data "thumbnail" (VStr "");
  v_views := get video_data "views" (VInt 0);
  v_performance_ratio := get video_data "performance_ratio" (VFloat one);
  v_post_date := get video_data "post_date" (VStr (now_iso clk));
  v_collection_date := VStr (now_iso clk)
|}.

Definition is_null (v : value) : bool :=
  match v with VNone => true | _ => false end.

(** The [NOT NULL] columns of [videos]. *)
Definition video_row_ok (r : video_row) : bool :=
  negb (is_null (v_platform r) || is_null (v_profile_id r)
        || is_null (v_title r) || is_null (v_url r) || is_null (v_views r)
        || is_null (v_performance_ratio r) || is_null (v_post_date r)
        || is_null (v_collection_date r)).

(** [INSERT OR REPLACE INTO videos], primary key [id]. *)
Definition same_video (r r' : video_row) : bool :=
  negb (is_null (v_id r)) && bool_decide (v_id r = v_id r').

Definition replace_video (r : video_row) (table : list video_row)
    : list video_row :=
  filter (λ r', same_video r r' = false) table ++ [r].

Definition add_video (clk : clock) (video_data : video) : M unit :=
  λ db,
    let r := row_of clk video_data in
    if video_row_ok r
    then (Ok (), {| videos := replace_video r (videos db);
                    daily_top_videos := daily_top_videos db |})
    else (Err IntegrityError, db).

(** [INSERT OR REPLACE INTO daily_top_videos], primary key
    [(date, video_id)]; every column is [NOT NULL]. *)
Definition same_ranking (r r' : ranking_row) : bool :=
  bool_decide (r_date r = r_date r') && bool_decide (r_video_id r = r_video_id r').

Definition replace_ranking (r : ranking_row) (table : list ranking_row)
    : list ranking_row :=
  filter (λ r', same_ranking r r' = false) table ++ [r].

Definition add_ranking (date : string) (video_id : value) (rank : Z)
    : M unit :=
  λ db,
    if is_null video_id then (Err IntegrityError, db)
    else (Ok (), {| videos := videos db;
                    daily_top_videos :=
                      replace_ranking {| r_date := date;
                                         r_video_id := video_id;
                                         r_rank := rank |}
                                      (daily_top_videos db) |}).

(** [for video in videos: self.add_video(video)] *)
Fixpoint add_videos (clk : clock) (vs : list video) : M unit :=
  match vs with
  | [] => ret ()
  | v :: rest => add_video clk v ;ᴹ add_videos clk rest
  end.

(** [for rank, video in enumerate(videos, 1): ...], from [rank]. *)
Fixpoint add_rankings (date : string) (rank : Z) (vs : list video)
    : M unit :=
  match vs with
  | [] => ret ()
  | v :: rest =>
      add_ranking date (get_none v "id") rank ;ᴹ
      add_rankings date (rank + 1) rest
  end.

(** [date] is [None] when the caller leaves it out. *)
Definition add_daily_top_videos (clk : clock) (vs : list video)
    (date : option string) : M unit :=
  let date := default (isoformat (today clk)) date in
  add_videos clk vs ;ᴹ add_rankings date 1 vs.

(** The date read off the file name. [Ok None] is the fall-back the
    caller turns into the current date; [Err OverflowError] is raised by
    [timedelta] or by the subtraction when the day leaves the range of
    [date], and is not handled. *)
Definition import_date (clk : clock) (filename : string)
    : result (option string) :=
  if startswith "videos-" filename
  then
    match split_on "-" filename !! 1%nat with
    | None => Ok None
    | Some part =>
        match py_int (List.hd EmptyString (split_on "." part)) with
        | None => Ok None
        | Some day_offset =>
            let day := today clk - day_offset in
            if (min_ordinal <=? day) && (day <=? max_ordinal)
            then Ok (Some (isoformat day))
            else Err OverflowError
        end
    end
  else Ok None.

Definition import_from_json (clk : clock) (fs : filesystem)
    (json_file : string) : M Z :=
  match fs !! json_file with
  | None | Some FInvalid => ret 0
  | Some (FUnreadable e) => raise (ReadError e)
  | Some (FJson (JList vs)) =>
      match import_date clk (basename json_file) with
      | Err e => raise e
      | Ok date =>
          add_daily_top_videos clk vs date ;ᴹ ret (Z.of_nat (length vs))
      end
  | Some (FJson _) => ret 0
  end.

(** The body of the loop over the directory. *)
Definition import_entry (clk : clock) (fs : filesystem) (data_dir : string)
    (filename : string) : M unit :=
  if startswith "videos-" filename && endswith ".json" filename
  then import_from_json clk fs (path_join data_dir filename) ;ᴹ ret ()
  else ret ().

(** [for filename in os.listdir(data_dir): ...]; [listing] is what
    [os.listdir] answers. *)
Fixpoint import_listing (clk : clock) (fs : filesystem) (data_dir : string)
    (listing : list string) : M unit :=
  match listing with
  | [] => ret ()
  | filename :: rest =>
      import_entry clk fs data_dir filename ;ᴹ
      import_listing clk fs data_dir rest
  end.

(** [initialize_database(data_dir)], on the content of the database
    file it opens. *)
Definition initialize_database (clk : clock) (fs : filesystem)
    (data_dir : string) (listing : list string) : M unit :=
  let sample_file := data_dir +:+ "/sample-videos.json" in
  (if bool_decide (is_Some (fs !! sample_file))
   then import_from_json clk fs sample_file ;ᴹ ret ()
   else ret ()) ;ᴹ
  import_listing clk fs data_dir listing.

(** The ranking rows stored for a date. *)
Definition rows_for (date : string) (db : database) : list ranking_row :=
  filter (λ r, r_date r = date) (daily_top_videos db).

Definition empty_db : database := {| videos := []; daily_top_videos := [] |}.

End Database.

(** * Specification-side definitions *)

Module Spec.

Import Instagram ViralIdentification Database.

(** A record that carries [views] only. *)
Definition rec_views (n : Z) : video := {[ "views" := VInt n ]}.

(** The record is viral: its ratio, not yet rounded, reaches the
    threshold. *)
Definition viral (avg min_ratio : num) (v : video) : bool :=
  match ratio_of avg v with
  | Some ratio => ge ratio min_ratio
  | None => false
  end.

(** The record with its rounded ratio attached. *)
Definition scored (avg : num) (v : video) : video :=
  match ratio_of avg v with
  | Some ratio => with_ratio ratio v
  | None => v
  end.

(** The scoring contract as the specification words it: the ratio is
    [views / average], [0] only when the average equals zero; it is
    rounded to one decimal place, and the record is kept when the rounded
    ratio reaches the threshold. *)
Definition spec_ratio (avg : num) (v : video) : option num :=
  if eq avg (NInt 0) then Some (NInt 0)
  else n ← views_of v; NFloat <$> truediv (NInt n) avg.

Fixpoint spec_viral (avg min_ratio : num) (videos : list video)
    : option (list video) :=
  match videos with
  | [] => Some []
  | v :: rest =>
      ratio ← spec_ratio avg v;
      out ← spec_viral avg min_ratio rest;
      Some (if ge (round1 ratio) min_ratio
            then with_ratio ratio v :: out else out)
  end.

Definition spec_viral_filter (videos : list video) (min_ratio : num)
    : option (list video) :=
  avg ← calculate_average_views videos; spec_viral avg min_ratio videos.

(** The cohort of the specification's scenario, its average 21250.0 and
    the float [2.4]. *)
Definition scenario_cohort : list video :=
  rec_views <$> [10000; 20000; 5000; 50000].
Definition scenario_average : num :=
  NFloat (S754_finite false 5841155522560000 (-38)).
Definition float_2_4 : float := S754_finite false 5404319552844595 (-51).

(** A cohort in which one ratio, 49 / 25 = 1.96, rounds up to the
    threshold. *)
Definition near_cohort : list video := rec_views <$> [49; 1].

(** A string that is not empty, as a field value. *)
Definition nonempty_str (field : option value) : bool :=
  match field with
  | Some (VStr s) => negb (bool_decide (s = ""))
  | _ => false
  end.

(** What a second normalisation does to a normalised record. *)
Definition forget_creator (w : video) : video :=
  <["creator" := VStr "Unknown Creator"]> w.

(** Two clocks that read different days, and a raw Instagram record. *)
Definition monday (i : nat) : string := "2025-04-14T00:00:00".
Definition tuesday (i : nat) : string := "2025-04-15T00:00:00".
Definition raw_instagram : video :=
  {[ "id" := VStr "v1"; "platform" := VStr "instagram";
     "profile" := VStr "hormozi"; "views" := VInt 50000 ]}.

(** The platforms [add_video] knows, with the raw creator key it reads
    for each. *)
Definition creator_keys : list (string * string) :=
  [("instagram", "profile"); ("youtube", "channel_id");
   ("tiktok", "username"); ("facebook", "page_id")].

Definition known_platform (v : video) : bool :=
  is_platform v "instagram" || is_platform v "youtube"
  || is_platform v "tiktok" || is_platform v "facebook".

Definition noon : clock :=
  {| today := 739355; now_iso := "2025-04-14T12:00:00" |}.

(** The id under which a record is ranked. *)
Definition id_of (v : video) : value := get_none v "id".

Definition ranking (date : string) (v : video) (rank : Z) : ranking_row :=
  {| r_date := date; r_video_id := id_of v; r_rank := rank |}.

(** The rows the specification expects for a date: the record at
    position [i], counted from [rank], holds rank [rank + i]. *)
Fixpoint expected_rows (date : string) (rank : Z) (vs : list video)
    : list ranking_row :=
  match vs with
  | [] => []
  | v :: rest => ranking date v rank :: expected_rows date (rank + 1) rest
  end.

(** The ranking table after the second loop of [add_daily_top_videos]. *)
Fixpoint rank_all (date : string) (rank : Z) (vs : list video)
    (table : list ranking_row) : list ranking_row :=
  match vs with
  | [] => table
  | v :: rest =>
      rank_all date (rank + 1) rest (replace_ranking (ranking date v rank) table)
  end.

Definition is_str (v : value) : bool :=
  match v with VStr _ => true | _ => false end.

(** A record the store accepts: no NULL reaches a [NOT NULL] column and
    the id is a string. *)
Definition storable (clk : clock) (v : video) : bool :=
  video_row_ok (row_of clk v) && is_str (id_of v).

(** Stored records of the scenarios. *)
Definition stored (id : string) : video :=
  {[ "id" := VStr id; "platform" := VStr "instagram";
     "profile" := VStr "hormozi" ]}.

(** The store after a first run for 2025-04-14 ranked "a" then "b". *)
Definition after_first_run : database :=
  (add_daily_top_videos noon [stored "a"; stored "b"] (Some "2025-04-14")
     empty_db).2.

(** The sort key of a record whose ratio is a number. *)
Definition key_of (v : video) : num := default (NInt 0) (ratio_key v).

(** A ranked entry: sort key, position in the input, record. *)
Definition entry : Type := num * (nat * video).

(** [x] ranks strictly above [y]: a greater key, or an equal key and an
    earlier position in the input. *)
Definition above {A} (pos : A → nat) (x y : num * A) : Prop :=
  gt x.1 y.1 = true ∨ (eq x.1 y.1 = true ∧ (pos x.2 < pos y.2)%nat).

Definition outranks (x y : entry) : Prop := above fst x y.

(** The key of [y] is at most the key of [x]. *)
Definition below_or_level {A} (y x : num * A) : Prop :=
  ext_le (ext_of y.1) (ext_of x.1) = true.

(** The records of the input with their keys and positions, from
    position [j]. *)
Fixpoint entries_from (j : nat) (videos : list video) : list entry :=
  match videos with
  | [] => []
  | v :: rest => (key_of v, (j, v)) :: entries_from (S j) rest
  end.

(** The selection scenario of the specification: ids 1 to 5 with ratios
    5.0, 3.0, 7.0, 1.5 and 4.0. *)
Definition ratio_record (id : string) (ratio : float) : video :=
  {[ "id" := VStr id; "performance_ratio" := VFloat ratio ]}.

Definition float_5 : float := S754_finite false 5629499534213120 (-50).
Definition float_3 : float := S754_finite false 6755399441055744 (-51).
Definition float_7 : float := S754_finite false 7881299347898368 (-50).
Definition float_1_5 : float := S754_finite false 6755399441055744 (-52).
Definition float_4 : float := S754_finite false 4503599627370496 (-50).

Definition selection_scenario : list video :=
  [ ratio_record "1" float_5; ratio_record "2" float_3;
    ratio_record "3" float_7; ratio_record "4" float_1_5;
    ratio_record "5" float_4 ].

(** A random source for the scenarios. *)
Definition sample_rng (i : nat) : draw := {|
  dr_platform := match (i mod 4)%nat with
                 | 0%nat => Instagram
                 | 1%nat => Youtube
                 | 2%nat => Tiktok
                 | _ => Facebook
                 end;
  dr_base_views := 10000 + Z.of_nat i;
  dr_uniform := float_2_4;
  dr_video_id := "video" +:+ pretty i;
  dr_post_date := "2025-04-13T08:00:00"
|}.

(** The pipeline when it does not generate samples. *)
Definition pipeline (clock : nat → string) (data_dir : string)
    (fs : filesystem) : option (list video) * filesystem :=
  match records_of (combine_platform_videos fs data_dir) with
  | None => (None, fs)
  | Some records =>
      match select_top_viral_videos (normalize_video_data clock records) 10
              (NFloat two) with
      | None => (None, fs)
      | Some top_videos =>
          (Some top_videos, generate_daily_data top_videos data_dir 0 fs)
      end
  end.

(** A snapshot file the import recovers from: it is missing, holds text
    that [json.load] rejects with [JSONDecodeError], or holds JSON that
    is not a list. *)
Definition malformed (fs : filesystem) (path : string) : bool :=
  match fs !! path with
  | None | Some FInvalid => true
  | Some (FJson (JList _)) => false
  | Some (FJson _) => true
  | Some (FUnreadable _) => false
  end.

(** A directory with one good snapshot among three malformed ones. *)
Definition mixed_files : filesystem :=
  {[ "data/videos-0.json" := FInvalid;
     "data/videos-1.json" := FJson (JList [stored "a"; stored "b"]);
     "data/videos-2.json" := FJson (JScalar (VInt 7)) ]}.

(** Text made of decimal digits only. *)
Fixpoint digits_only (s : string) : bool :=
  match s with
  | EmptyString => true
  | String c rest =>
      match digit_of c with
      | Some _ => digits_only rest
      | None => false
      end
  end.

(** What may follow the day offset in a file name: nothing, or text that
    starts with a dot or a dash. *)
Definition ends_offset (rest : string) : Prop :=
  rest = "" ∨ ∃ r, rest = String "." r ∨ rest = String "-" r.

(** The text [import_from_json] hands to [int]. *)
Definition offset_text (filename : string) : string :=
  List.hd EmptyString
    (split_on "." (default EmptyString (split_on "-" filename !! 1%nat))).

(** The file-name pattern as the specification words it:
    [videos-<n>.json] with an integer [n]. *)
Definition integer_literal (s : string) : option Z :=
  match s with
  | EmptyString => None
  | String c rest =>
      if bool_decide (c = "-"%char)
      then (if digits_only rest then Z.opp <$> parse_digits 0 false rest
            else None)
      else (if digits_only s then parse_digits 0 false s else None)
  end.

Definition pattern_offset (filename : string) : option Z :=
  if startswith "videos-" filename && endswith ".json" filename
  then integer_literal
         (String.substring 7 (String.length filename - 12) filename)
  else None.

Definition spec_import_date (clk : clock) (filename : string)
    : result (option string) :=
  match pattern_offset filename with
  | Some n => Ok (Some (isoformat (today clk - n)))
  | None => Ok None
  end.

(** Snapshot files of the scenarios. *)
Definition snapshot_files : filesystem :=
  {[ "data/videos-2.json" := FJson (JList [stored "a"]);
     "data/videos-2.txt" := FJson (JList [stored "a"]) ]}.

(** [x] does not sort after [y]: its key is not the smaller one. *)
Definition not_smaller {A} (x y : num * A) : Prop := lt x.1 y.1 = false.

(** The same on records, by their ratio. *)
Definition ratio_not_smaller (v w : video) : Prop :=
  lt (key_of v) (key_of w) = false.


(** The fields of a normalised record: nine for every platform, and
    [videoId] for youtube. *)
Definition common_fields : gset string :=
  {[ "id"; "platform"; "title"; "url"; "thumbnail"; "views";
     "performance_ratio"; "post_date"; "creator" ]}.

Definition fields_of (youtube : bool) : gset string :=
  if youtube then common_fields ∪ {[ "videoId" ]} else common_fields.

Definition is_youtube (v : video) : bool :=
  bool_decide (v !! "platform" = Some (VStr "youtube")).


(** Platform files of the pipeline scenarios: two arrays and a file
    that is not JSON. *)
Definition viral_record (id platform : string) (ratio : float) : video :=
  {[ "id" := VStr id; "platform" := VStr platform;
     "performance_ratio" := VFloat ratio;
     "post_date" := VStr "2025-04-13T08:00:00" ]}.

Definition platform_files : filesystem :=
  {[ "data/top_instagram_viral_videos.json"
       := FJson (JList [ viral_record "i1" "instagram" float_3;
                         viral_record "i2" "instagram" float_1_5 ]);
     "data/top_youtube_viral_videos.json" := FInvalid;
     "data/top_tiktok_viral_videos.json"
       := FJson (JList [ viral_record "t1" "tiktok" float_7 ]) ]}.


#[global] Instance json_eq_dec : EqDecision json.
Proof. solve_decision. Defined.

#[global] Instance file_eq_dec : EqDecision file.
Proof. solve_decision. Defined.

#[global] Instance item_eq_dec : EqDecision item.
Proof. solve_decision. Defined.


(** A value SQLite takes as it is bound: an integer that fits 64 bits
    (a larger one raises [OverflowError] before the statement runs) and
    a float that is not NaN (a NaN is stored as NULL). *)
Definition binds (x : value) : bool :=
  match x with
  | VInt n => (- 2 ^ 63 <=? n) && (n <? 2 ^ 63)
  | VFloat S754_nan => false
  | _ => true
  end.

Definition row_binds (r : video_row) : bool :=
  binds (v_id r) && binds (v_platform r) && binds (v_profile_id r)
  && binds (v_title r) && binds (v_url r) && binds (v_thumbnail r)
  && binds (v_views r) && binds (v_performance_ratio r)
  && binds (v_post_date r) && binds (v_collection_date r).

(** A record the store accepts with every value kept as bound. *)
Definition accepted (clk : clock) (v : video) : bool :=
  storable clk v && row_binds (row_of clk v).





(** A record whose row the [videos] table takes, whatever its id. *)
Definition row_accepted (clk : clock) (v : video) : bool :=
  video_row_ok (row_of clk v) && row_binds (row_of clk v).


Definition orphan (id : string) : video :=
  {[ "id" := VStr id; "platform" := VStr "instagram" ]}.


(** The text holds no separator. *)
Fixpoint free_of (sep : ascii) (s : string) : bool :=
  match s with
  | EmptyString => true
  | String c rest => negb (bool_decide (c = sep)) && free_of sep rest
  end.


(** The malformed files as the specification words them: the file is
    missing, is not valid JSON, or parses to a value that is not a
    list. Bytes that are not UTF-8 text are not valid JSON. *)
Definition spec_malformed (fs : filesystem) (path : string) : bool :=
  match fs !! path with
  | None | Some FInvalid | Some (FUnreadable UnicodeDecodeError) => true
  | Some (FJson (JList _)) => false
  | Some (FJson _) => true
  | Some (FUnreadable _) => false
  end.

(** A directory whose first snapshot is not UTF-8 text. *)
Definition undecodable_files : filesystem :=
  {[ "data/videos-0.json" := FUnreadable UnicodeDecodeError;
     "data/videos-1.json" := FJson (JList [stored "a"; stored "b"]) ]}.


End Spec.

Import Instagram ViralIdentification Database Spec.

(** A closed, decidable statement is settled by evaluating its
    decision procedure. *)
Ltac by_eval :=
  cbv zeta; apply (bool_decide_eq_true_1 _); vm_cast_no_check (eq_refl true).

(** * The scoring engine *)

Lemma viral_loop_acc avg min_ratio (videos acc : list video) :
  Forall (λ v, is_Some (ratio_of avg v)) videos →
  viral_loop avg min_ratio acc videos
  = Some (acc ++ (scored avg <$>
                  filter (λ v, viral avg min_ratio v = true) videos)).
Proof.
  intros Hall. revert acc.
  induction Hall as [|v rest [ratio Hr] _ IH]; intros acc; simpl.
  - by rewrite app_nil_r.
  - assert (Hv : viral avg min_ratio v = ge ratio min_ratio)
      by (unfold viral; by rewrite Hr).
    assert (Hs : scored avg v = with_ratio ratio v)
      by (unfold scored; by rewrite Hr).
    rewrite Hr. simpl. rewrite filter_cons.
    destruct (ge ratio min_ratio) eqn:Hge.
    + rewrite decide_True by congruence.
      rewrite IH, <- app_assoc. simpl. by rewrite Hs.
    + rewrite decide_False by congruence. apply IH.
Qed.

(** C1, as the code has it. For a non-empty cohort whose average and
    ratios can be computed, [identify_viral_videos] returns, in input
    order, exactly the records whose ratio before rounding reaches
    [min_ratio], each with the ratio rounded to one decimal place
    attached; the ratio is [views / average] when the average is
    positive and [0] otherwise. On the cohort 10000, 20000, 5000, 50000
    with the default threshold only the 50000-view record is returned,
    with ratio 2.4. *)
Theorem scoring_filters_on_raw_ratio :
  (∀ (videos : list video) (min_ratio avg : num),
     videos ≠ [] →
     calculate_average_views videos = Some avg →
     Forall (λ v, is_Some (ratio_of avg v)) videos →
     Instagram.identify_viral_videos videos min_ratio
     = Some (scored avg <$>
             filter (λ v, viral avg min_ratio v = true) videos))
  ∧ Instagram.identify_viral_videos scenario_cohort default_min_ratio
    = Some [ <["performance_ratio" := VFloat float_2_4]> (rec_views 50000) ].
Proof.
  split.
  - intros videos min_ratio avg Hne Havg Hall.
    unfold Instagram.identify_viral_videos.
    destruct videos as [|v rest]; [done|].
    rewrite Havg. cbn [mbind option_bind].
    by rewrite (viral_loop_acc avg min_ratio (v :: rest) []).
  - by_eval.
Qed.

Lemma scoring_filters_on_raw_ratio_witness :
  Instagram.identify_viral_videos scenario_cohort default_min_ratio
  = Some (scored scenario_average <$>
          filter (λ v, viral scenario_average default_min_ratio v = true)
                 scenario_cohort).
Proof.
  apply (proj1 scoring_filters_on_raw_ratio).
  - discriminate.
  - vm_compute. reflexivity.
  - repeat constructor; vm_compute; eexists; reflexivity.
Defined.

(** C1 as the specification words it fails on the cohort 49, 1: the
    average is 25, the first ratio is 1.96, which is below 2.0 and rounds
    to 2.0. The code returns no record; filtering on the rounded ratio
    would return the first one. *)
Lemma scoring_rounded_filter_counterexample :
  Instagram.identify_viral_videos near_cohort default_min_ratio = Some []
  ∧ spec_viral_filter near_cohort default_min_ratio
    = Some [ <["performance_ratio" := VFloat two]> (rec_views 49) ]
  ∧ Instagram.identify_viral_videos near_cohort default_min_ratio
    ≠ spec_viral_filter near_cohort default_min_ratio.
Proof. by_eval. Qed.

(** The guard of the ratio is [avg_views > 0]: on a cohort of negative
    views the average is negative, every ratio is [0] and no record is
    returned. *)
Lemma scoring_negative_average :
  Instagram.identify_viral_videos (rec_views <$> [-3; -1; -1; -1])
    default_min_ratio
  = Some [].
Proof. by_eval. Qed.

(** * The normaliser *)

Ltac norm_lookup :=
  unfold normalize_video, get; case_bool_decide; by simplify_map_eq.

Lemma normalize_video_id now v :
  normalize_video now v !! "id" = Some (get v "id" (VStr "")).
Proof. norm_lookup. Qed.

Lemma normalize_video_platform now v :
  normalize_video now v !! "platform" = Some (get v "platform" (VStr "unknown")).
Proof. norm_lookup. Qed.

Lemma normalize_video_title now v :
  normalize_video now v !! "title" = Some (get v "title" (VStr "Untitled Video")).
Proof. norm_lookup. Qed.

Lemma normalize_video_url now v :
  normalize_video now v !! "url" = Some (get v "url" (VStr "")).
Proof. norm_lookup. Qed.

Lemma normalize_video_thumbnail now v :
  normalize_video now v !! "thumbnail" = Some (get v "thumbnail" (VStr "")).
Proof. norm_lookup. Qed.

Lemma normalize_video_views now v :
  normalize_video now v !! "views" = Some (get v "views" (VInt 0)).
Proof. norm_lookup. Qed.

Lemma normalize_video_ratio now v :
  normalize_video now v !! "performance_ratio"
  = Some (get v "performance_ratio" (VFloat one)).
Proof. norm_lookup. Qed.

Lemma normalize_video_post_date now v :
  normalize_video now v !! "post_date" = Some (get v "post_date" (VStr now)).
Proof. norm_lookup. Qed.

Lemma normalize_video_creator now v :
  normalize_video now v !! "creator" = Some (creator_of v).
Proof. norm_lookup. Qed.

Lemma normalize_video_videoId now v :
  normalize_video now v !! "videoId"
  = if bool_decide (get_none v "platform" = VStr "youtube")
    then Some (get v "videoId" (get v "id" (VStr ""))) else None.
Proof. unfold normalize_video, get. case_bool_decide; by simplify_map_eq. Qed.

(** A normalised record holds none of the raw creator keys. *)
Lemma normalize_video_raw_keys now v :
  normalize_video now v !! "profile" = None
  ∧ normalize_video now v !! "channel_id" = None
  ∧ normalize_video now v !! "username" = None
  ∧ normalize_video now v !! "page_id" = None.
Proof. repeat split; norm_lookup. Qed.

Lemma normalize_video_youtube now v :
  get_none (normalize_video now v) "platform" = VStr "youtube"
  ↔ get_none v "platform" = VStr "youtube".
Proof.
  unfold get_none at 1. unfold get at 1.
  rewrite normalize_video_platform. unfold get_none, get.
  destruct (v !! "platform") as [p|]; simpl; [done|]. split; discriminate.
Qed.

(** The clock enters a normalised record through [post_date] only. *)
Lemma normalize_video_clock now v :
  normalize_video now v
  = <["post_date" := get v "post_date" (VStr now)]> (normalize_video "" v).
Proof.
  apply map_eq; intros k. unfold normalize_video.
  case_bool_decide;
    rewrite !lookup_insert; repeat case_decide; simplify_eq; done.
Qed.

Lemma get_normalize_video now v key d x :
  normalize_video now v !! key = Some x →
  get (normalize_video now v) key d = x.
Proof. unfold get. by intros ->. Qed.

Lemma normalize_video_twice t1 t2 v :
  normalize_video t2 (normalize_video t1 v)
  = forget_creator (normalize_video t1 v).
Proof.
  destruct (normalize_video_raw_keys t1 v) as (Hp & Hc & Hu & Hg).
  unfold forget_creator.
  unfold normalize_video at 1. unfold creator_of at 1.
  rewrite Hp, Hc, Hu, Hg.
  rewrite (bool_decide_ext _ _ (normalize_video_youtube t1 v)).
  rewrite (get_normalize_video _ _ _ _ _ (normalize_video_post_date t1 v)),
    (get_normalize_video _ _ _ _ _ (normalize_video_ratio t1 v)),
    (get_normalize_video _ _ _ _ _ (normalize_video_views t1 v)),
    (get_normalize_video _ _ _ _ _ (normalize_video_thumbnail t1 v)),
    (get_normalize_video _ _ _ _ _ (normalize_video_url t1 v)),
    (get_normalize_video _ _ _ _ _ (normalize_video_title t1 v)),
    (get_normalize_video _ _ _ _ _ (normalize_video_platform t1 v)),
    !(get_normalize_video _ _ _ _ _ (normalize_video_id t1 v)).
  unfold get at 1. rewrite normalize_video_videoId.
  unfold normalize_video.
  case_bool_decide; simpl; by rewrite insert_insert_eq.
Qed.

Lemma normalize_from_lookup clock j (videos : list video) i :
  normalize_from clock j videos !! i
  = normalize_video (clock (j + i)%nat) <$> videos !! i.
Proof.
  revert j i. induction videos as [|v rest IH]; intros j i; [done|].
  destruct i as [|i]; simpl.
  - by rewrite Nat.add_0_r.
  - rewrite IH. by rewrite Nat.add_succ_r.
Qed.

Lemma normalize_from_twice c1 c2 j1 j2 (videos : list video) :
  normalize_from c2 j2 (normalize_from c1 j1 videos)
  = forget_creator <$> normalize_from c1 j1 videos.
Proof.
  revert j1 j2. induction videos as [|v rest IH]; intros j1 j2; [done|].
  simpl. by rewrite normalize_video_twice, IH.
Qed.

(** C5, as the code has it. A second normalisation leaves every field
    of every record as the first pass produced it, except [creator],
    which it sets to the literal "Unknown Creator" because a normalised
    record has none of the raw creator keys; from the second pass on,
    normalising again changes nothing. *)
Theorem normalize_twice_forgets_creator :
  ∀ (c1 c2 c3 : nat → string) (videos : list video),
    normalize_video_data c2 (normalize_video_data c1 videos)
    = forget_creator <$> normalize_video_data c1 videos
    ∧ normalize_video_data c3
        (normalize_video_data c2 (normalize_video_data c1 videos))
      = normalize_video_data c2 (normalize_video_data c1 videos).
Proof.
  intros c1 c2 c3 videos. unfold normalize_video_data.
  rewrite (normalize_from_twice c1 c2). split; [done|].
  rewrite <- (normalize_from_twice c1 c2 0%nat 0%nat) at 1.
  rewrite (normalize_from_twice c2 c3), (normalize_from_twice c1 c2).
  rewrite <- list_fmap_compose. apply list_fmap_ext.
  intros i w _. unfold forget_creator; simpl. by rewrite insert_insert_eq.
Qed.

(** C5 as the specification words it fails on a raw Instagram record:
    the first pass resolves [creator] from [profile], the second pass
    finds no raw creator key and overwrites it. *)
Lemma normalize_idempotence_counterexample :
  let once := normalize_video_data monday [raw_instagram] in
  let twice := normalize_video_data monday once in
  (λ w : video, w !! "creator") <$> once = [Some (VStr "hormozi")]
  ∧ (λ w : video, w !! "creator") <$> twice = [Some (VStr "Unknown Creator")]
  ∧ twice ≠ once.
Proof. by_eval. Qed.

(** C6, as the code has it. Every output record carries [id] and
    [platform]: the input's value when the key is present, and otherwise
    the empty string for [id] and "unknown" for [platform]. The output
    [platform] is therefore a non-empty string when the input has no
    [platform] key, while the output [id] is a non-empty string only
    when the input's [id] is one. *)
Theorem normalize_id_and_platform :
  ∀ (clock : nat → string) (videos : list video) (i : nat) (v : video),
    videos !! i = Some v →
    ∃ out : video,
      normalize_video_data clock videos !! i = Some out
      ∧ out !! "id" = Some (get v "id" (VStr ""))
      ∧ out !! "platform" = Some (get v "platform" (VStr "unknown"))
      ∧ (v !! "id" = None → out !! "id" = Some (VStr ""))
      ∧ (v !! "platform" = None → nonempty_str (out !! "platform") = true)
      ∧ (nonempty_str (out !! "id") = nonempty_str (v !! "id")).
Proof.
  intros clock videos i v Hv. unfold normalize_video_data.
  exists (normalize_video (clock i) v).
  rewrite normalize_from_lookup, Hv. simpl.
  rewrite normalize_video_id, normalize_video_platform. unfold get.
  repeat split.
  - by intros ->.
  - by intros ->.
  - by destruct (v !! "id") as [[]|].
Qed.

Lemma normalize_id_and_platform_witness :
  ∃ out : video,
    normalize_video_data monday [raw_instagram] !! 0%nat = Some out
    ∧ out !! "id" = Some (get raw_instagram "id" (VStr ""))
    ∧ out !! "platform" = Some (get raw_instagram "platform" (VStr "unknown"))
    ∧ (raw_instagram !! "id" = None → out !! "id" = Some (VStr ""))
    ∧ (raw_instagram !! "platform" = None
       → nonempty_str (out !! "platform") = true)
    ∧ (nonempty_str (out !! "id") = nonempty_str (raw_instagram !! "id")).
Proof. apply normalize_id_and_platform. reflexivity. Defined.

(** C6 as the specification words it fails on a record without an [id]
    key: its normalised [id] is the empty string. *)
Lemma normalize_empty_id_counterexample :
  ∃ out : video,
    out ∈ normalize_video_data monday [ {[ "platform" := VStr "tiktok" ]} ]
    ∧ out !! "id" = Some (VStr "")
    ∧ nonempty_str (out !! "id") = false.
Proof.
  eexists. split; [apply list_elem_of_here|]. by_eval.
Qed.

(** C10, as the code has it. The normaliser reads its input and the
    clock, and the clock only to fill a missing [post_date]: two runs
    agree on every field other than [post_date], they agree on whole
    records when every record carries [post_date], and a record without
    it gets the clock reading of its turn. *)
Theorem normalize_depends_on_clock_for_post_date :
  ∀ (c1 c2 : nat → string) (videos : list video),
    (Forall (λ v : video, is_Some (v !! "post_date")) videos →
     normalize_video_data c1 videos = normalize_video_data c2 videos)
    ∧ (∀ i o1 o2 key,
         normalize_video_data c1 videos !! i = Some o1 →
         normalize_video_data c2 videos !! i = Some o2 →
         key ≠ "post_date" → o1 !! key = o2 !! key)
    ∧ (∀ i v,
         videos !! i = Some v → v !! "post_date" = None →
         ∃ out : video,
           normalize_video_data c1 videos !! i = Some out
           ∧ out !! "post_date" = Some (VStr (c1 i))).
Proof.
  intros c1 c2 videos. unfold normalize_video_data. repeat split.
  - intros Hall. apply list_eq; intros i.
    rewrite !normalize_from_lookup.
    destruct (videos !! i) as [v|] eqn:Hv; [|done]. simpl. f_equal.
    rewrite Forall_lookup in Hall. destruct (Hall i v Hv) as [d Hd].
    rewrite (normalize_video_clock (c1 _)), (normalize_video_clock (c2 _)).
    unfold get. by rewrite Hd.
  - intros i o1 o2 key. rewrite !normalize_from_lookup.
    destruct (videos !! i) as [v|]; [|done]. simpl.
    intros [= <-] [= <-] Hkey.
    rewrite (normalize_video_clock (c1 _)), (normalize_video_clock (c2 _)).
    by rewrite !lookup_insert_ne.
  - intros i v Hv Hd. exists (normalize_video (c1 i) v).
    rewrite normalize_from_lookup, Hv. split; [done|].
    rewrite normalize_video_post_date. unfold get. by rewrite Hd.
Qed.

Lemma normalize_depends_on_clock_for_post_date_witness :
  normalize_video_data monday [ {[ "post_date" := VStr "2025-04-10T12:00:00" ]} ]
  = normalize_video_data tuesday [ {[ "post_date" := VStr "2025-04-10T12:00:00" ]} ].
Proof.
  apply (proj1 (normalize_depends_on_clock_for_post_date monday tuesday _)).
  repeat constructor. by eexists.
Defined.

(** C10 as the specification words it fails on a record without
    [post_date]: two runs at different times return different records. *)
Lemma normalize_determinism_counterexample :
  normalize_video_data monday [raw_instagram]
  ≠ normalize_video_data tuesday [raw_instagram]
  ∧ (λ w : video, w !! "post_date") <$> normalize_video_data monday [raw_instagram]
    = [Some (VStr "2025-04-14T00:00:00")]
  ∧ (λ w : video, w !! "post_date") <$> normalize_video_data tuesday [raw_instagram]
    = [Some (VStr "2025-04-15T00:00:00")].
Proof. by_eval. Qed.

(** * The store: videos *)

Lemma add_video_null_profile clk (v : video) db :
  profile_id_of v = VNone →
  add_video clk v db = (Err IntegrityError, db).
Proof.
  intros Hp. unfold add_video, video_row_ok, row_of. simpl. rewrite Hp. simpl.
  by rewrite !orb_true_r.
Qed.

Lemma profile_id_of_known (v : video) platform key :
  (platform, key) ∈ creator_keys →
  v !! "platform" = Some (VStr platform) →
  profile_id_of v = get_none v key ∧ known_platform v = true.
Proof.
  intros Hin Hp. unfold creator_keys in Hin.
  unfold known_platform, profile_id_of, is_platform, get. rewrite Hp.
  repeat (apply elem_of_cons in Hin as [[= -> ->]|Hin]; [done|]).
  by apply elem_of_nil in Hin.
Qed.

Lemma add_videos_first_fails clk v rest db :
  add_video clk v db = (Err IntegrityError, db) →
  add_videos clk (v :: rest) db = (Err IntegrityError, db).
Proof. intros H. simpl. unfold bind. by rewrite H. Qed.

(** C4. A record whose [platform] is instagram, youtube, tiktok or
    facebook and that lacks the raw creator key of that platform gets
    [profile_id = None], and [add_video] raises [IntegrityError] and
    stores nothing. A normalised record lacks all four raw keys. The
    [creator] field is read only for other platforms. So
    [add_daily_top_videos] on a selection whose first record is a
    normalised record of one of the four platforms raises on that record
    and leaves the store as it was. The statements about the INSERT are
    for records whose values SQLite binds: an integer outside 64 bits
    raises [OverflowError] before the INSERT runs. *)
Theorem add_video_rejects_normalized :
  (∀ clk (v : video) db platform key,
     (platform, key) ∈ creator_keys →
     v !! "platform" = Some (VStr platform) →
     v !! key = None →
     row_binds (row_of clk v) = true →
     profile_id_of v = VNone
     ∧ add_video clk v db = (Err IntegrityError, db))
  ∧ (∀ now (raw : video) platform key,
       (platform, key) ∈ creator_keys →
       normalize_video now raw !! key = None
       ∧ normalize_video now raw !! "creator" = Some (creator_of raw))
  ∧ (∀ (v : video) c,
       known_platform v = true →
       profile_id_of (<["creator" := c]> v) = profile_id_of v)
  ∧ (∀ v : video,
       known_platform v = false →
       profile_id_of v = get v "creator" (VStr "unknown"))
  ∧ (∀ clk now (raw : video) rest date db platform key,
       (platform, key) ∈ creator_keys →
       raw !! "platform" = Some (VStr platform) →
       row_binds (row_of clk (normalize_video now raw)) = true →
       add_daily_top_videos clk (normalize_video now raw :: rest) date db
       = (Err IntegrityError, db)).
Proof.
  assert (Hraw : ∀ now (raw : video) platform key,
             (platform, key) ∈ creator_keys →
             normalize_video now raw !! key = None).
  { intros now raw platform key Hin.
    destruct (normalize_video_raw_keys now raw) as (? & ? & ? & ?).
    unfold creator_keys in Hin.
    repeat (apply elem_of_cons in Hin as [[= -> ->]|Hin]; [done|]).
    by apply elem_of_nil in Hin. }
  assert (Hfail : ∀ clk (v : video) db platform key,
             (platform, key) ∈ creator_keys →
             v !! "platform" = Some (VStr platform) →
             v !! key = None →
             profile_id_of v = VNone
             ∧ add_video clk v db = (Err IntegrityError, db)).
  { intros clk v db platform key Hin Hp Hk.
    destruct (profile_id_of_known v platform key Hin Hp) as [Hid _].
    assert (profile_id_of v = VNone) as Hnone
      by (rewrite Hid; unfold get_none, get; by rewrite Hk).
    split; [done|]. by apply add_video_null_profile. }
  split; [by intros clk v db platform key Hin Hp Hk _; eapply Hfail|]. split.
  { intros now raw platform key Hin. split; [by eapply Hraw|].
    apply normalize_video_creator. }
  split.
  { intros v c. unfold known_platform, profile_id_of, is_platform, get_none, get.
    rewrite !lookup_insert_ne by done.
    repeat case_bool_decide; simpl; try done. }
  split.
  { intros v. unfold known_platform, profile_id_of.
    intros H. repeat (apply orb_false_elim in H as [H ?]).
    by repeat match goal with H : is_platform _ _ = false |- _ => rewrite H; clear H end. }
  intros clk now raw rest date db platform key Hin Hp _.
  unfold add_daily_top_videos, bind.
  rewrite (add_videos_first_fails clk _ rest db); [done|].
  eapply Hfail; [exact Hin| |by eapply Hraw].
  rewrite normalize_video_platform. unfold get. by rewrite Hp.
Qed.

Lemma add_video_rejects_normalized_witness :
  add_daily_top_videos noon [normalize_video "2025-04-14T12:00:00" raw_instagram]
    None empty_db
  = (Err IntegrityError, empty_db).
Proof.
  apply (proj2 (proj2 (proj2 (proj2 add_video_rejects_normalized)))
           noon _ raw_instagram [] None empty_db "instagram" "profile").
  - apply list_elem_of_here.
  - reflexivity.
  - by_eval.
Defined.

(** * The store: daily rankings *)

Lemma add_videos_ok clk (vs : list video) db :
  Forall (λ v, storable clk v = true) vs →
  ∃ table,
    add_videos clk vs db
    = (Ok (), {| videos := table; daily_top_videos := daily_top_videos db |}).
Proof.
  intros Hall. revert db.
  induction Hall as [|v rest Hv _ IH]; intros db; simpl.
  - exists (videos db). by destruct db.
  - unfold bind, add_video. unfold storable in Hv.
    apply andb_true_iff in Hv as [-> _].
    destruct (IH {| videos := replace_video (row_of clk v) (videos db);
                    daily_top_videos := daily_top_videos db |}) as [t Ht].
    exists t. by rewrite Ht.
Qed.

Lemma add_rankings_ok clk date rank (vs : list video) db :
  Forall (λ v, storable clk v = true) vs →
  add_rankings date rank vs db
  = (Ok (), {| videos := videos db;
               daily_top_videos := rank_all date rank vs (daily_top_videos db) |}).
Proof.
  intros Hall. revert rank db.
  induction Hall as [|v rest Hv _ IH]; intros rank db; simpl.
  - by destruct db.
  - unfold bind, add_ranking. unfold storable in Hv.
    apply andb_true_iff in Hv as [_ Hid]. fold (id_of v).
    destruct (id_of v) eqn:Hidv; try discriminate Hid. simpl.
    rewrite IH. simpl. unfold ranking. by rewrite Hidv.
Qed.

Lemma same_ranking_false (r r' : ranking_row) :
  same_ranking r r' = false
  ↔ ¬ (r_date r = r_date r' ∧ r_video_id r = r_video_id r').
Proof.
  unfold same_ranking. rewrite andb_false_iff, !bool_decide_eq_false.
  split; [tauto|]. intros H.
  destruct (decide (r_date r = r_date r')); [right|left]; tauto.
Qed.

Lemma elem_of_replace_ranking (r0 r : ranking_row) table :
  r ∈ replace_ranking r0 table
  ↔ (r ∈ table ∧ ¬ (r_date r0 = r_date r ∧ r_video_id r0 = r_video_id r))
    ∨ r = r0.
Proof.
  unfold replace_ranking.
  rewrite elem_of_app, list_elem_of_filter, same_ranking_false,
    list_elem_of_singleton.
  tauto.
Qed.

Lemma rank_all_other_date date rank (vs : list video) table d :
  d ≠ date →
  filter (λ r, r_date r = d) (rank_all date rank vs table)
  = filter (λ r, r_date r = d) table.
Proof.
  intros Hd. revert rank table.
  induction vs as [|v rest IH]; intros rank table; simpl; [done|].
  rewrite IH. unfold replace_ranking.
  rewrite filter_app, filter_cons, decide_False, app_nil_r by (simpl; congruence).
  rewrite list_filter_filter. apply list_filter_iff.
  intros r. rewrite same_ranking_false. simpl. split; [tauto|].
  intros Hr. split; [done|]. intros [Heq _]. congruence.
Qed.

(** The rows after the ranking loop: a row that was there stays unless a
    ranked record has its date and id; each ranked id gets one row, whose
    rank is the position of its last occurrence. *)
Lemma elem_of_rank_all date rank (vs : list video) table r :
  r ∈ rank_all date rank vs table
  ↔ (r ∈ table ∧ ¬ (r_date r = date ∧ r_video_id r ∈ id_of <$> vs))
    ∨ (∃ (i : nat) v,
         vs !! i = Some v ∧ r = ranking date v (rank + Z.of_nat i)
         ∧ ∀ (j : nat) v', (i < j)%nat → vs !! j = Some v' → id_of v' ≠ id_of v).
Proof.
  revert rank table. induction vs as [|v rest IH]; intros rank table; simpl.
  - split.
    + intros Hr. left. split; [done|]. intros [_ H]. by apply elem_of_nil in H.
    + intros [[Hr _]|(i & v & H & _)]; [done|]. by destruct i.
  - rewrite IH, elem_of_replace_ranking. simpl. split.
    + intros [[[[Hr Hn]| ->] Hrest]|(i & v' & Hi & -> & Hlast)].
      * left. split; [done|]. intros [Hd Hin].
        apply elem_of_cons in Hin as [Hin|Hin]; [|tauto].
        apply Hn. split; congruence.
      * right. exists 0%nat, v. rewrite Z.add_0_r.
        split; [done|]. split; [done|].
        intros j v' Hj Hv' Heq. destruct j as [|j]; [lia|]. simpl in Hv'.
        apply Hrest. split; [done|]. simpl.
        apply list_elem_of_fmap. exists v'. split; [done|].
        by eapply list_elem_of_lookup_2.
      * right. exists (S i), v'. split; [done|]. split.
        { f_equal. lia. }
        intros j v'' Hj Hv''. destruct j as [|j]; [lia|].
        apply (Hlast j v''); [lia|done].
    + intros [[Hr Hn]|(i & v' & Hi & -> & Hlast)].
      * left. split.
        { left. split; [done|]. intros [Hd Hid]. apply Hn.
          split; [done|]. rewrite <- Hid. apply list_elem_of_here. }
        intros [Hd Hin]. apply Hn. split; [done|]. by apply list_elem_of_further.
      * destruct i as [|i]; simpl in Hi.
        { injection Hi as ->. left. rewrite Z.add_0_r. split; [by right|].
          simpl. intros [_ Hin].
          apply list_elem_of_fmap in Hin as (v'' & Heq & Hin).
          apply list_elem_of_lookup in Hin as [j Hj].
          apply (Hlast (S j) v''); [lia|done|done]. }
        right. exists i, v'. split; [done|]. split.
        { f_equal. lia. }
        intros j v'' Hj Hv''. apply (Hlast (S j) v''); [lia|done].
Qed.

Lemma filter_all {A} (P : A → Prop) `{∀ x, Decision (P x)} (l : list A) :
  Forall P l → filter P l = l.
Proof.
  induction 1 as [|x l Hx _ IH]; [done|].
  by rewrite filter_cons_True, IH.
Qed.

(** With no earlier row in the way and pairwise distinct ids the loop
    appends the expected rows in order. *)
Lemma rank_all_fresh date rank (vs : list video) table :
  (∀ r, r ∈ table → ¬ (r_date r = date ∧ r_video_id r ∈ id_of <$> vs)) →
  NoDup (id_of <$> vs) →
  rank_all date rank vs table = table ++ expected_rows date rank vs.
Proof.
  revert rank table. induction vs as [|v rest IH]; intros rank table Hfree Hnd.
  - simpl. by rewrite app_nil_r.
  - simpl in *. apply NoDup_cons in Hnd as [Hv Hnd].
    assert (Hkeep : replace_ranking (ranking date v rank) table
                    = table ++ [ranking date v rank]).
    { unfold replace_ranking. f_equal.
      apply filter_all.
      apply Forall_forall. intros r Hr. apply same_ranking_false. simpl.
      intros [Hd Hid]. apply (Hfree r Hr). split; [done|].
      rewrite <- Hid. apply list_elem_of_here. }
    rewrite Hkeep, IH, <- app_assoc; [done| |done].
    intros r Hr [Hd Hin].
    apply elem_of_app in Hr as [Hr|Hr].
    + apply (Hfree r Hr). split; [done|]. by apply list_elem_of_further.
    + apply list_elem_of_singleton in Hr as ->. simpl in Hin. done.
Qed.

Lemma expected_rows_lookup date rank (vs : list video) (i : nat) :
  expected_rows date rank vs !! i
  = (λ v, ranking date v (rank + Z.of_nat i)) <$> vs !! i.
Proof.
  revert rank i. induction vs as [|v rest IH]; intros rank i; [done|].
  destruct i as [|i]; simpl.
  - by rewrite Z.add_0_r.
  - rewrite IH. destruct (rest !! i); simpl; [|done]. do 2 f_equal. lia.
Qed.

Lemma filter_date_expected date rank (vs : list video) :
  filter (λ r, r_date r = date) (expected_rows date rank vs)
  = expected_rows date rank vs.
Proof.
  revert rank. induction vs as [|v rest IH]; intros rank; [done|].
  simpl. rewrite filter_cons, decide_True by done. by rewrite IH.
Qed.

(** C3, as the code has it. [add_daily_top_videos] on records the store
    accepts (a string id, no NULL for a [NOT NULL] column, values that
    SQLite binds as they are: integers within 64 bits and no NaN)
    completes, leaves the rows of every other date as they were,
    and writes the date's rows one key at a time: a row stored earlier
    for the date stays when its video is not in the new list, and every
    video of the list has one row whose rank is the position, counted
    from 1, of its last occurrence. When the date had no rows and the ids
    are pairwise distinct, the rows of the date are the records in order
    with ranks 1 to N. *)
Theorem daily_ranking_is_row_upsert :
  ∀ clk (vs : list video) (date : option string) db,
    Forall (λ v, accepted clk v = true) vs →
    ∃ db',
      add_daily_top_videos clk vs date db = (Ok (), db')
      ∧ let d := default (isoformat (today clk)) date in
        (∀ d', d' ≠ d → rows_for d' db' = rows_for d' db)
        ∧ (∀ r, r ∈ rows_for d db' ↔
             (r ∈ rows_for d db ∧ r_video_id r ∉ id_of <$> vs)
             ∨ (∃ (i : nat) v,
                  vs !! i = Some v ∧ r = ranking d v (1 + Z.of_nat i)
                  ∧ ∀ (j : nat) v',
                      (i < j)%nat → vs !! j = Some v' → id_of v' ≠ id_of v))
        ∧ (rows_for d db = [] → NoDup (id_of <$> vs) →
           rows_for d db' = expected_rows d 1 vs
           ∧ ∀ i : nat,
               rows_for d db' !! i
               = (λ v, ranking d v (1 + Z.of_nat i)) <$> vs !! i).
Proof.
  intros clk vs date db Hacc.
  assert (Hall : Forall (λ v, storable clk v = true) vs).
  { eapply Forall_impl; [exact Hacc|]. intros v Hv. unfold accepted in Hv.
    by apply andb_true_iff in Hv as [Hv _]. }
  destruct (add_videos_ok clk vs db Hall) as [table Hvideos].
  set (d := default (isoformat (today clk)) date).
  exists {| videos := table;
            daily_top_videos := rank_all d 1 vs (daily_top_videos db) |}.
  split.
  { unfold add_daily_top_videos, bind. rewrite Hvideos.
    by rewrite (add_rankings_ok clk). }
  unfold rows_for. simpl. split; [|split].
  - intros d' Hd'. by apply rank_all_other_date.
  - intros r. rewrite !list_elem_of_filter, elem_of_rank_all. split.
    + intros [Hd [[Hr Hn]|(i & v & Hi & -> & Hlast)]].
      * left. tauto.
      * right. by exists i, v.
    + intros [[[Hd Hr] Hn]|(i & v & Hi & -> & Hlast)].
      * split; [done|]. left. tauto.
      * split; [done|]. right. by exists i, v.
  - intros Hnone Hnd.
    assert (Hrows : filter (λ r, r_date r = d)
                      (rank_all d 1 vs (daily_top_videos db))
                    = expected_rows d 1 vs).
    { rewrite rank_all_fresh; [|intros r Hr [Hd _]|done].
      - by rewrite filter_app, Hnone, filter_date_expected.
      - by eapply filter_nil_not_elem_of; [exact Hnone|exact Hd|]. }
    split; [done|]. intros i. rewrite Hrows. apply expected_rows_lookup.
Qed.

Lemma daily_ranking_is_row_upsert_witness :
  ∃ db',
    add_daily_top_videos noon [stored "a"; stored "b"] (Some "2025-04-14")
      empty_db
    = (Ok (), db').
Proof.
  destruct (daily_ranking_is_row_upsert noon [stored "a"; stored "b"]
              (Some "2025-04-14") empty_db) as (db' & Hrun & _).
  - repeat constructor; by_eval.
  - by exists db'.
Defined.

(** C3 as the specification words it fails when a date is ranked twice
    with different videos: after "a", "b" and then "c" alone for the same
    date, the rows of the first run are still stored, and rank 1 occurs
    twice. *)
Lemma daily_ranking_replacement_counterexample :
  let run :=
    add_daily_top_videos noon [stored "c"] (Some "2025-04-14") after_first_run in
  run.1 = Ok ()
  ∧ rows_for "2025-04-14" run.2
    = [ ranking "2025-04-14" (stored "a") 1;
        ranking "2025-04-14" (stored "b") 2;
        ranking "2025-04-14" (stored "c") 1 ]
  ∧ rows_for "2025-04-14" run.2
    ≠ expected_rows "2025-04-14" 1 [stored "c"].
Proof. by_eval. Qed.

(** * The order on numbers *)

Lemma ext_lt_fin p q : ext_lt (EFin p) (EFin q) = true ↔ (p < q)%Q.
Proof.
  simpl. rewrite Qlt_alt. destruct (p ?= q)%Q; split; congruence.
Qed.

Lemma ext_eq_fin p q : ext_eq (EFin p) (EFin q) = true ↔ (p == q)%Q.
Proof. simpl. apply Qeq_bool_iff. Qed.

Lemma ext_le_fin p q : ext_le (EFin p) (EFin q) = true ↔ (p <= q)%Q.
Proof.
  unfold ext_le. rewrite orb_true_iff, ext_lt_fin, ext_eq_fin.
  symmetry. apply Qle_lteq.
Qed.

Lemma ext_eq_sym a b : ext_eq a b = ext_eq b a.
Proof.
  destruct a as [|s|p], b as [|t|q]; simpl; try done.
  - by destruct s, t.
  - apply eq_true_iff_eq. rewrite !Qeq_bool_iff. split; apply Qeq_sym.
Qed.

Lemma ext_total a b :
  a ≠ ENaN → b ≠ ENaN → ext_lt a b = false → ext_le b a = true.
Proof.
  intros Ha Hb.
  destruct a as [|[]|p], b as [|[]|q]; try done.
  intros Hlt. apply ext_le_fin. apply Qnot_lt_le.
  intros H. apply ext_lt_fin in H. congruence.
Qed.

Lemma ext_le_trans a b c :
  ext_le a b = true → ext_le b c = true → ext_le a c = true.
Proof.
  destruct a as [|[]|p], b as [|[]|q], c as [|[]|r]; try done.
  rewrite !ext_le_fin. apply Qle_trans.
Qed.

Lemma ge_not_nan x y : ge x y = true → ext_of x ≠ ENaN.
Proof.
  unfold ge, lt, eq. intros H Hx. rewrite Hx in H.
  by destruct (ext_of y) as [|[]|q].
Qed.

(** * Stable descending sort *)

Section Sorting.

Context {A : Type} (pos : A → nat).

Local Abbreviation above := (above pos).

Lemma insert_desc_perm (x : num * A) s : insert_desc x s ≡ₚ x :: s.
Proof.
  induction s as [|y s IH]; simpl; [done|].
  destruct (lt x.1 y.1); [|done].
  rewrite IH. apply Permutation_swap.
Qed.

Lemma sort_desc_perm (l : list (num * A)) : sort_desc l ≡ₚ l.
Proof.
  induction l as [|x l IH]; simpl; [done|].
  by rewrite insert_desc_perm, IH.
Qed.

Lemma above_below x y : above x y → below_or_level y x.
Proof.
  unfold above, below_or_level, ext_le, gt, lt, eq.
  intros [->|[H _]]; [done|]. rewrite ext_eq_sym, H. apply orb_true_r.
Qed.

Lemma below_earlier_above x y :
  below_or_level y x → (pos x.2 < pos y.2)%nat → above x y.
Proof.
  unfold above, below_or_level, ext_le, gt, lt, eq.
  intros H Hpos. apply orb_true_iff in H as [H|H]; [by left|].
  right. by rewrite ext_eq_sym.
Qed.

Lemma insert_desc_sorted (x : num * A) s :
  ext_of x.1 ≠ ENaN →
  Forall (λ y, ext_of y.1 ≠ ENaN) s →
  Forall (λ y, (pos x.2 < pos y.2)%nat) s →
  StronglySorted above s →
  StronglySorted above (insert_desc x s).
Proof.
  intros Hx Hnan Hpos Hs.
  induction Hs as [|y s Hs IH Hy]; simpl.
  - by repeat constructor.
  - apply Forall_cons in Hnan as [Hynan Hnan].
    apply Forall_cons in Hpos as [Hypos Hpos].
    destruct (lt x.1 y.1) eqn:Hlt.
    + constructor; [by apply IH|].
      rewrite insert_desc_perm. constructor; [by left|done].
    + assert (Hyx : below_or_level y x) by (by apply ext_total).
      constructor; [by constructor|].
      constructor; [by apply below_earlier_above|].
      rewrite Forall_forall in Hy, Hpos |- *. intros z Hz.
      apply below_earlier_above; [|by apply Hpos].
      eapply ext_le_trans; [|exact Hyx]. by apply above_below, Hy.
Qed.

Lemma sort_desc_sorted (l : list (num * A)) :
  Forall (λ y, ext_of y.1 ≠ ENaN) l →
  StronglySorted (λ x y, (pos x.2 < pos y.2)%nat) l →
  StronglySorted above (sort_desc l).
Proof.
  intros Hnan Hs. induction Hs as [|x l Hs IH Hx]; simpl; [constructor|].
  apply Forall_cons in Hnan as [Hxnan Hnan].
  apply insert_desc_sorted; [done| | |by apply IH].
  - by rewrite sort_desc_perm.
  - by rewrite sort_desc_perm.
Qed.

End Sorting.

Lemma insert_desc_fmap {A B} (f : A → B) (x : num * A) s :
  insert_desc (prod_map id f x) (prod_map id f <$> s)
  = prod_map id f <$> insert_desc x s.
Proof.
  induction s as [|y s IH]; [done|].
  change (insert_desc (prod_map id f x) (prod_map id f <$> y :: s))
    with (if lt x.1 y.1
          then prod_map id f y
               :: insert_desc (prod_map id f x) (prod_map id f <$> s)
          else prod_map id f x :: prod_map id f y :: (prod_map id f <$> s)).
  rewrite IH. simpl. by destruct (lt x.1 y.1).
Qed.

Lemma sort_desc_fmap {A B} (f : A → B) (l : list (num * A)) :
  sort_desc (prod_map id f <$> l) = prod_map id f <$> sort_desc l.
Proof.
  induction l as [|x l IH]; [done|].
  change (sort_desc (prod_map id f <$> x :: l))
    with (insert_desc (prod_map id f x) (sort_desc (prod_map id f <$> l))).
  by rewrite IH, insert_desc_fmap.
Qed.

Lemma filter_fmap {A B} (f : A → B) (P : B → Prop) `{∀ y, Decision (P y)}
    (l : list A) :
  filter P (f <$> l) = f <$> filter (λ x, P (f x)) l.
Proof.
  induction l as [|x l IH]; [done|].
  rewrite fmap_cons, !filter_cons, IH.
  by destruct (decide (P (f x))).
Qed.

Lemma filter_strongly_sorted {A} (R : A → A → Prop) (P : A → Prop)
    `{∀ x, Decision (P x)} (l : list A) :
  StronglySorted R l → StronglySorted R (filter P l).
Proof.
  induction 1 as [|x l Hs IH Hx]; [constructor|].
  rewrite filter_cons. destruct (decide (P x)); [|done].
  constructor; [done|].
  rewrite Forall_forall in Hx |- *. intros y Hy.
  apply list_elem_of_filter in Hy as [_ Hy]. by apply Hx.
Qed.

(** * The top-viral selection *)

Lemma keyed_entries (videos : list video) :
  Forall (λ v, is_Some (ratio_key v)) videos →
  keyed videos = Some ((λ v, (key_of v, v)) <$> videos).
Proof.
  unfold keyed. induction 1 as [|v rest [k Hk] _ IH]; [done|].
  rewrite fmap_cons. unfold key_of at 1. rewrite Hk. simpl.
  rewrite Hk. simpl. by rewrite IH.
Qed.

Lemma entries_from_records j (videos : list video) :
  prod_map id snd <$> entries_from j videos = (λ v, (key_of v, v)) <$> videos.
Proof.
  revert j. induction videos as [|v rest IH]; intros j; [done|].
  simpl. by rewrite IH.
Qed.

Lemma elem_of_entries_from j (videos : list video) k i v :
  (k, (i, v)) ∈ entries_from j videos
  ↔ ∃ i' : nat, i = (j + i')%nat ∧ videos !! i' = Some v ∧ k = key_of v.
Proof.
  revert j. induction videos as [|w rest IH]; intros j; simpl.
  - split; [by intros H%elem_of_nil|]. by intros (i' & _ & H & _).
  - rewrite elem_of_cons, IH. split.
    + intros [[= -> -> ->]|(i' & -> & Hi & ->)].
      * exists 0%nat. by rewrite Nat.add_0_r.
      * exists (S i'). split; [lia|done].
    + intros (i' & -> & Hi & ->). destruct i' as [|i']; simpl in Hi.
      * left. injection Hi as ->. by rewrite Nat.add_0_r.
      * right. exists i'. split; [lia|done].
Qed.

Lemma entries_from_sorted j (videos : list video) :
  StronglySorted (λ x y : entry, (x.2.1 < y.2.1)%nat) (entries_from j videos).
Proof.
  revert j. induction videos as [|v rest IH]; intros j; simpl; constructor.
  - apply IH.
  - apply Forall_forall. intros [k [i w]] Hin.
    apply elem_of_entries_from in Hin as (i' & -> & _). simpl. lia.
Qed.

(** C2. For records whose ratio is a number and a count that is not
    negative, [select_top_viral_videos] returns the first [count]
    records of the ranking of the input: the ranking holds exactly the
    records whose ratio reaches [min_ratio], each once, ordered so that
    every record stands before all records with a smaller ratio and
    before all later records of the input with an equal ratio. On ids 1
    to 5 with ratios 5.0, 3.0, 7.0, 1.5, 4.0, count 3 and threshold 3.0
    the result is the records 3, 1, 5. *)
Theorem select_top_is_stable_descending :
  (∀ (videos : list video) (count : Z) (min_ratio : num),
     0 ≤ count →
     Forall (λ v, is_Some (ratio_key v)) videos →
     ∃ ranked : list entry,
       (∀ k i v,
          (k, (i, v)) ∈ ranked
          ↔ videos !! i = Some v ∧ ratio_key v = Some k
            ∧ ge k min_ratio = true)
       ∧ StronglySorted outranks ranked
       ∧ select_top_viral_videos videos count min_ratio
         = Some (take (Z.to_nat count) ((λ x : entry, x.2.2) <$> ranked)))
  ∧ select_top_viral_videos selection_scenario 3 (NFloat float_3)
    = Some [ ratio_record "3" float_7; ratio_record "1" float_5;
             ratio_record "5" float_4 ].
Proof.
  split; [|by_eval].
  intros videos count min_ratio Hcount Hall.
  set (viral := λ x : entry, ge x.1 min_ratio = true).
  exists (sort_desc (filter viral (entries_from 0 videos))).
  split; [|split].
  - intros k i v.
    rewrite sort_desc_perm, list_elem_of_filter, elem_of_entries_from.
    unfold viral. simpl. split.
    + intros (Hge & i' & -> & Hi & ->). split; [done|]. split; [|done].
      rewrite Forall_lookup in Hall. destruct (Hall _ _ Hi) as [k Hk].
      unfold key_of. by rewrite Hk.
    + intros (Hi & Hk & Hge). split; [done|]. exists i.
      split; [done|]. split; [done|]. unfold key_of. by rewrite Hk.
  - apply sort_desc_sorted.
    + apply Forall_forall. intros x Hx.
      apply list_elem_of_filter in Hx as [Hx _]. by eapply ge_not_nan.
    + apply filter_strongly_sorted, entries_from_sorted.
  - unfold select_top_viral_videos. rewrite (keyed_entries _ Hall).
    simpl. rewrite <- (entries_from_records 0).
    rewrite (filter_fmap (prod_map id snd)), sort_desc_fmap.
    rewrite <- list_fmap_compose. unfold slice_to.
    destruct (count <? 0) eqn:Hneg; [apply Z.ltb_lt in Hneg; lia|done].
Qed.

Lemma select_top_is_stable_descending_witness :
  ∃ ranked : list entry,
    StronglySorted outranks ranked
    ∧ select_top_viral_videos selection_scenario 3 (NFloat float_3)
      = Some (take 3 ((λ x : entry, x.2.2) <$> ranked)).
Proof.
  destruct (proj1 select_top_is_stable_descending selection_scenario 3
              (NFloat float_3)) as (ranked & _ & Hsorted & Hrun).
  - lia.
  - repeat constructor; by eexists.
  - by exists ranked.
Defined.

(** * Sample generation *)

Lemma generate_sample_data_length rng data_dir count fs samples fs' :
  generate_sample_data rng data_dir count fs = (Some samples, fs') →
  length samples = count.
Proof.
  unfold generate_sample_data.
  destruct (mapM _ _) as [drawn|] eqn:Hdrawn; [|done].
  intros [= <- _]. apply length_mapM in Hdrawn.
  by rewrite length_fmap, sort_desc_perm, <- Hdrawn, length_seq.
Qed.

(** C7, as the code has it. When no platform contributes a video, the
    pipeline generates samples unless the caller passes
    [generate_samples=False]: it does so when the argument is [True] and
    also when the caller leaves it out, since its default is [True], and
    a generation that returns yields ten records. Only a caller that
    passes [False] receives the empty result. When some platform
    contributes, neither the argument nor the random source matters. *)
Theorem samples_unless_disabled :
  ∀ (clock : nat → string) (rng : nat → draw) data_dir (fs : filesystem),
    (combine_platform_videos fs data_dir = [] →
     (∀ generate_samples,
        generate_samples ≠ Some false →
        identify_viral_videos clock rng data_dir generate_samples fs
        = generate_sample_data rng data_dir 10 fs)
     ∧ (∀ samples fs',
          generate_sample_data rng data_dir 10 fs = (Some samples, fs') →
          length samples = 10%nat)
     ∧ identify_viral_videos clock rng data_dir (Some false) fs
       = (Some [], generate_daily_data [] data_dir 0 fs))
    ∧ (combine_platform_videos fs data_dir ≠ [] →
       ∀ generate_samples,
         identify_viral_videos clock rng data_dir generate_samples fs
         = pipeline clock data_dir fs).
Proof.
  intros clock rng data_dir fs. unfold identify_viral_videos, pipeline. split.
  - intros ->. split; [|split].
    + intros [[]|] Hg; done.
    + intros samples fs'. apply generate_sample_data_length.
    + done.
  - intros Hne generate_samples.
    by rewrite bool_decide_eq_false_2.
Qed.

Lemma samples_unless_disabled_witness :
  identify_viral_videos monday sample_rng "../data" None ∅
  = generate_sample_data sample_rng "../data" 10 ∅.
Proof.
  apply (proj1 (samples_unless_disabled monday sample_rng "../data" ∅)).
  - reflexivity.
  - discriminate.
Defined.

(** C7 as the specification words it fails for a caller that does not
    pass [generate_samples]: with no platform file at all the run
    returns ten generated samples, not the empty result. *)
Lemma silent_samples_counterexample :
  let run := identify_viral_videos monday sample_rng "../data" None ∅ in
  combine_platform_videos ∅ "../data" = []
  ∧ length <$> run.1 = Some 10%nat
  ∧ run.1 ≠ Some [].
Proof. by_eval. Qed.

(** * Import of snapshot files *)

Lemma import_malformed clk (fs : filesystem) path db :
  malformed fs path = true →
  import_from_json clk fs path db = (Ok 0, db).
Proof.
  unfold malformed, import_from_json.
  by destruct (fs !! path) as [[[]| |]|].
Qed.

Lemma import_listing_skip clk (fs : filesystem) dir file post db :
  malformed fs (path_join dir file) = true →
  import_listing clk fs dir (file :: post) db
  = import_listing clk fs dir post db.
Proof.
  intros Hbad. cbn [import_listing]. unfold bind at 1, import_entry.
  destruct (startswith "videos-" file && endswith ".json" file); [|done].
  unfold bind at 1. by rewrite import_malformed.
Qed.

(** C9, as the code has it. Importing a path whose file is missing,
    holds text that [json.load] rejects with [JSONDecodeError], or holds
    JSON that is not a list returns 0, raises nothing and leaves the
    store as it was; the import loop of [initialize_database] therefore
    behaves on a listing with such a file as on the listing without it,
    and a malformed sample file is passed over in the same way. A file
    whose loading raises any other error is not recovered:
    [import_from_json] raises that error and stores nothing. *)
Theorem malformed_import_is_skipped :
  (∀ clk (fs : filesystem) path db,
     malformed fs path = true →
     import_from_json clk fs path db = (Ok 0, db))
  ∧ (∀ clk (fs : filesystem) path e db,
       fs !! path = Some (FUnreadable e) →
       import_from_json clk fs path db = (Err (ReadError e), db))
  ∧ (∀ clk (fs : filesystem) dir pre file post db,
       malformed fs (path_join dir file) = true →
       import_listing clk fs dir (pre ++ file :: post) db
       = import_listing clk fs dir (pre ++ post) db)
  ∧ (∀ clk (fs : filesystem) dir listing db,
       malformed fs (dir +:+ "/sample-videos.json") = true →
       initialize_database clk fs dir listing db
       = import_listing clk fs dir listing db).
Proof.
  split; [exact import_malformed|]. split.
  { intros clk fs path e db Hfile. unfold import_from_json. by rewrite Hfile. }
  split.
  - intros clk fs dir pre file post db Hbad. revert db.
    induction pre as [|first pre IH]; intros db.
    + by apply import_listing_skip.
    + cbn [import_listing app]. unfold bind at 1 2.
      destruct (import_entry clk fs dir first db) as [[[]|e] db'];
        [apply IH|done].
  - intros clk fs dir listing db Hbad. unfold initialize_database.
    unfold bind at 1. case_bool_decide; [|done].
    unfold bind at 1. by rewrite import_malformed.
Qed.

Lemma malformed_import_is_skipped_witness :
  import_listing noon mixed_files "data"
    ["videos-0.json"; "videos-1.json"; "videos-2.json"] empty_db
  = import_listing noon mixed_files "data"
      ["videos-1.json"; "videos-2.json"] empty_db.
Proof.
  apply (proj1 (proj2 (proj2 malformed_import_is_skipped))
           noon mixed_files "data" [] "videos-0.json").
  reflexivity.
Defined.

(** C9 as the specification words it fails on a file that is not valid
    JSON because its bytes are not UTF-8 text: reading it raises
    [UnicodeDecodeError], which [import_from_json] does not handle, so
    the import raises, and the loop over the directory stops there
    without importing the good snapshot that follows. *)
Lemma malformed_import_counterexample :
  let import listing :=
    import_listing noon undecodable_files "data" listing empty_db in
  spec_malformed undecodable_files "data/videos-0.json" = true
  ∧ import_from_json noon undecodable_files "data/videos-0.json" empty_db
    = (Err (ReadError UnicodeDecodeError), empty_db)
  ∧ import ["videos-0.json"; "videos-1.json"]
    = (Err (ReadError UnicodeDecodeError), empty_db)
  ∧ (import ["videos-1.json"]).1 = Ok ()
  ∧ rows_for "2025-04-13" (import ["videos-1.json"]).2
    = [ ranking "2025-04-13" (stored "a") 1;
        ranking "2025-04-13" (stored "b") 2 ].
Proof. by_eval. Qed.

(** * The date read off a file name *)

Lemma string_app_cons x (a b : string) : String x a +:+ b = String x (a +:+ b).
Proof. reflexivity. Qed.

Lemma string_app_assoc (a b c : string) : (a +:+ b) +:+ c = a +:+ (b +:+ c).
Proof. induction a as [|x a IH]; [done|]. by rewrite !string_app_cons, IH. Qed.

Lemma string_app_nil_r (a : string) : a +:+ "" = a.
Proof. induction a as [|x a IH]; [done|]. by rewrite string_app_cons, IH. Qed.

Lemma string_length_app (a b : string) :
  String.length (a +:+ b) = (String.length a + String.length b)%nat.
Proof.
  induction a as [|x a IH]; [done|]. rewrite string_app_cons. simpl.
  by rewrite IH.
Qed.

Lemma digit_of_pretty_char (d : N) :
  (d < 10)%N → digit_of (pretty_N_char d) = Some (Z.of_N d).
Proof.
  intros Hd.
  assert (d = 0 ∨ d = 1 ∨ d = 2 ∨ d = 3 ∨ d = 4 ∨ d = 5 ∨ d = 6 ∨ d = 7
          ∨ d = 8 ∨ d = 9)%N as Hcases by lia.
  repeat (destruct Hcases as [->|Hcases]; [done|]). by subst.
Qed.

Lemma digits_only_app (a b : string) :
  digits_only a = true → digits_only b = true → digits_only (a +:+ b) = true.
Proof.
  intros Ha Hb. induction a as [|x a IH]; [done|].
  rewrite string_app_cons. simpl in *.
  destruct (digit_of x); [by apply IH|done].
Qed.

(** The digits [pretty_N_go] puts in front of its accumulator read back
    as the number. *)
Lemma pretty_N_go_digits (x : N) :
  (0 < x)%N →
  ∀ s, ∃ ds,
    pretty_N_go x s = ds +:+ s
    ∧ digits_only ds = true
    ∧ ds ≠ ""
    ∧ ∀ acc b t,
        parse_digits acc b (ds +:+ t)
        = parse_digits (acc * 10 ^ Z.of_nat (String.length ds) + Z.of_N x)
            true t.
Proof.
  induction (N.lt_wf_0 x) as [x _ IH]. intros Hx s.
  rewrite pretty_N_go_step by done.
  assert (Hd : (x `mod` 10 < 10)%N) by (apply N.mod_lt; lia).
  pose proof (digit_of_pretty_char _ Hd) as Hc.
  destruct (decide (x `div` 10 = 0)%N) as [Hz|Hnz].
  - rewrite Hz, pretty_N_go_0.
    exists (String (pretty_N_char (x `mod` 10)) "").
    split; [done|]. split; [by simpl; rewrite Hc|]. split; [done|].
    intros acc b t. simpl. rewrite Hc. f_equal.
    rewrite N.mod_small by (apply N.div_small_iff in Hz; lia). lia.
  - destruct (IH (x `div` 10)%N) with
      (s := String (pretty_N_char (x `mod` 10)) s)
      as (ds & Hgo & Hds & Hne & Hparse).
    { apply N.div_lt; lia. }
    { by apply N.neq_0_lt_0. }
    exists (ds +:+ String (pretty_N_char (x `mod` 10)) "").
    split; [by rewrite Hgo, string_app_assoc|].
    split; [apply digits_only_app; [done|by simpl; rewrite Hc]|].
    split; [by destruct ds|].
    intros acc b t. rewrite string_app_assoc, string_app_cons.
    change ("" +:+ t) with t.
    rewrite Hparse. simpl. rewrite Hc. f_equal.
    rewrite string_length_app. simpl.
    rewrite Nat2Z.inj_add, Z.pow_add_r by lia.
    pose proof (N.div_mod x 10). lia.
Qed.

Lemma pretty_N_digits (n : N) :
  digits_only (pretty n) = true
  ∧ pretty n ≠ ""
  ∧ parse_digits 0 false (pretty n) = Some (Z.of_N n).
Proof.
  unfold pretty, pretty_N. case_decide as Hn; [by subst|].
  destruct (pretty_N_go_digits n) with (s := "")
    as (ds & Hgo & Hds & Hne & Hparse); [by apply N.neq_0_lt_0|].
  rewrite Hgo, string_app_nil_r. split_and!; [done..|].
  rewrite <- (string_app_nil_r ds), Hparse. done.
Qed.

Lemma digit_not_space c d : digit_of c = Some d → is_space c = false.
Proof.
  unfold digit_of, is_space. cbv zeta.
  generalize (nat_of_ascii c). intros n.
  destruct (Nat.leb_spec 48 n), (Nat.leb_spec n 57); try done. intros _.
  destruct (Nat.leb_spec 9 n), (Nat.leb_spec n 13), (Nat.eqb_spec n 32);
    try lia; done.
Qed.

Lemma lstrip_digits (ds : string) : digits_only ds = true → lstrip ds = ds.
Proof.
  destruct ds as [|c ds]; [done|]. cbn [digits_only lstrip].
  destruct (digit_of c) eqn:Hc; [|done]. intros _.
  by rewrite (digit_not_space _ _ Hc).
Qed.

Lemma rstrip_digits (ds : string) : digits_only ds = true → rstrip ds = ds.
Proof.
  induction ds as [|c ds IH]; [done|]. cbn [digits_only rstrip].
  destruct (digit_of c) eqn:Hc; [|done]. intros Hds. rewrite (IH Hds).
  by rewrite (digit_not_space _ _ Hc).
Qed.

Lemma py_int_digits (ds : string) :
  digits_only ds = true → py_int ds = parse_digits 0 false ds.
Proof.
  intros Hds. unfold py_int, strip. rewrite lstrip_digits, rstrip_digits by done.
  destruct ds as [|c ds]; [done|]. simpl in Hds.
  destruct (digit_of c) eqn:Hc; [|done].
  rewrite !bool_decide_eq_false_2; [done| |]; by intros ->.
Qed.

Lemma split_on_lookup_0 sep s :
  split_on sep s !! 0%nat = Some (List.hd EmptyString (split_on sep s)).
Proof. destruct s as [|c s]; simpl; [done|]. by case_bool_decide. Qed.

Lemma hd_split_on_digits sep (ds rest : string) :
  digit_of sep = None → digits_only ds = true →
  List.hd EmptyString (split_on sep (ds +:+ rest))
  = ds +:+ List.hd EmptyString (split_on sep rest).
Proof.
  intros Hsep. induction ds as [|c ds IH]; [done|].
  rewrite !string_app_cons. simpl.
  destruct (digit_of c) eqn:Hc; [|done]. intros Hds.
  rewrite bool_decide_eq_false_2 by (intros ->; congruence).
  simpl. by rewrite IH.
Qed.

Lemma offset_text_digits (ds rest : string) :
  digits_only ds = true → ends_offset rest →
  startswith "videos-" ("videos-" +:+ ds +:+ rest) = true
  ∧ split_on "-" ("videos-" +:+ ds +:+ rest) !! 1%nat
    = Some (ds +:+ List.hd EmptyString (split_on "-" rest))
  ∧ List.hd EmptyString
      (split_on "." (ds +:+ List.hd EmptyString (split_on "-" rest)))
    = ds.
Proof.
  intros Hds Hrest. split; [done|]. split.
  - change (split_on "-" ("videos-" +:+ ds +:+ rest) !! 1%nat)
      with (split_on "-" (ds +:+ rest) !! 0%nat).
    by rewrite split_on_lookup_0, hd_split_on_digits.
  - rewrite hd_split_on_digits by done.
    rewrite <- (string_app_nil_r ds) at 2. f_equal.
    by destruct Hrest as [->|[r [->| ->]]].
Qed.

Lemma import_date_of_offset clk (n : N) (rest : string) :
  ends_offset rest →
  min_ordinal ≤ today clk - Z.of_N n ≤ max_ordinal →
  import_date clk ("videos-" +:+ pretty n +:+ rest)
  = Ok (Some (isoformat (today clk - Z.of_N n))).
Proof.
  intros Hrest [Hmin Hmax].
  destruct (pretty_N_digits n) as (Hds & Hne & Hparse).
  destruct (offset_text_digits _ _ Hds Hrest) as (Hstart & Hpart & Hhd).
  unfold import_date. rewrite Hstart, Hpart, Hhd.
  rewrite py_int_digits, Hparse by done.
  apply Z.leb_le in Hmin, Hmax. by rewrite Hmin, Hmax.
Qed.

Lemma import_date_fallback clk (filename : string) :
  startswith "videos-" filename = false ∨ py_int (offset_text filename) = None →
  import_date clk filename = Ok None.
Proof.
  unfold import_date, offset_text. intros [->|Hint]; [done|].
  destruct (startswith "videos-" filename); [|done].
  destruct (split_on "-" filename !! 1%nat) as [part|]; [|done].
  simpl in Hint. by rewrite Hint.
Qed.

(** C8, as the code has it. [import_from_json] reads the date off the
    base name: when the name starts with [videos-], the text up to the
    next dash or dot is handed to [int]. A name [videos-<n>] followed by
    nothing, a dot or a dash, with [n] a natural number in decimal and
    [n] days before today a valid date, is ranked under that date,
    whatever the extension and the content; so [videos-2.json] is ranked
    two days before the import date. A name that does not start with
    [videos-], or whose offset text [int] rejects (as the empty text in
    [videos--2.json]), is ranked under the current date. *)
Theorem import_date_from_name :
  (∀ clk (fs : filesystem) path vs (n : N) rest db,
     fs !! path = Some (FJson (JList vs)) →
     basename path = "videos-" +:+ pretty n +:+ rest →
     ends_offset rest →
     min_ordinal ≤ today clk - Z.of_N n ≤ max_ordinal →
     import_from_json clk fs path db
     = bind (add_daily_top_videos clk vs
               (Some (isoformat (today clk - Z.of_N n))))
            (λ _, ret (Z.of_nat (length vs))) db)
  ∧ (∀ clk (fs : filesystem) path vs db,
       fs !! path = Some (FJson (JList vs)) →
       startswith "videos-" (basename path) = false
       ∨ py_int (offset_text (basename path)) = None →
       import_from_json clk fs path db
       = bind (add_daily_top_videos clk vs (Some (isoformat (today clk))))
              (λ _, ret (Z.of_nat (length vs))) db)
  ∧ (∀ rest, py_int (offset_text ("videos--" +:+ rest)) = None).
Proof.
  split; [|split].
  - intros clk fs path vs n rest db Hfile Hname Hrest Hrange.
    unfold import_from_json. rewrite Hfile, Hname.
    by rewrite import_date_of_offset.
  - intros clk fs path vs db Hfile Hname.
    unfold import_from_json. rewrite Hfile.
    by rewrite import_date_fallback.
  - done.
Qed.

Lemma import_date_from_name_witness :
  import_from_json noon snapshot_files "data/videos-2.json" empty_db
  = bind (add_daily_top_videos noon [stored "a"] (Some "2025-04-12"))
         (λ _, ret 1) empty_db.
Proof.
  apply (proj1 import_date_from_name noon snapshot_files "data/videos-2.json"
           [stored "a"] 2%N ".json" empty_db).
  - reflexivity.
  - reflexivity.
  - right. exists "json". by left.
  - by vm_compute.
Defined.

(** C8 as the specification words it fails on a name outside the
    pattern: [videos-2.txt] is not [videos-<n>.json], yet its records
    are ranked two days before the import date, not under the current
    date. *)
Lemma import_date_pattern_counterexample :
  let run := import_from_json noon snapshot_files "data/videos-2.txt" empty_db in
  pattern_offset (basename "data/videos-2.txt") = None
  ∧ spec_import_date noon (basename "data/videos-2.txt") = Ok None
  ∧ import_date noon (basename "data/videos-2.txt") = Ok (Some "2025-04-12")
  ∧ isoformat (today noon) = "2025-04-14"
  ∧ rows_for "2025-04-14" run.2 = []
  ∧ rows_for "2025-04-12" run.2 = [ranking "2025-04-12" (stored "a") 1].
Proof. by_eval. Qed.

(** * Further properties *)

(** ** The scoring engine *)

Lemma sum_views_missing acc (videos : list video) v :
  v ∈ videos → views_of v = None → sum_views acc videos = None.
Proof.
  intros Hin Hv. revert acc.
  induction videos as [|w rest IH]; intros acc; [by apply elem_of_nil in Hin|].
  simpl. apply elem_of_cons in Hin as [<-|Hin].
  - by rewrite Hv.
  - destruct (views_of w); [by apply IH|done].
Qed.

(** X1. One record whose [views] is missing, null or a string makes the
    whole call raise, wherever it stands in the cohort and whatever the
    threshold: the sum over the cohort reads every record before any
    ratio is computed. *)
Theorem scoring_raises_on_missing_views :
  ∀ (videos : list video) (v : video) (min_ratio : num),
    v ∈ videos →
    (v !! "views" = None ∨ v !! "views" = Some VNone
     ∨ ∃ s, v !! "views" = Some (VStr s)) →
    Instagram.identify_viral_videos videos min_ratio = None.
Proof.
  intros videos v min_ratio Hin Hv.
  assert (Hviews : views_of v = None).
  { unfold views_of. by destruct Hv as [->|[->|[s ->]]]. }
  unfold Instagram.identify_viral_videos, calculate_average_views.
  destruct videos as [|w rest]; [by apply elem_of_nil in Hin|].
  by rewrite (sum_views_missing 0 (w :: rest) v).
Qed.

Lemma scoring_raises_on_missing_views_witness :
  Instagram.identify_viral_videos
    [rec_views 50000; {[ "title" := VStr "no views" ]}] default_min_ratio
  = None.
Proof.
  apply (scoring_raises_on_missing_views _ {[ "title" := VStr "no views" ]}).
  - apply list_elem_of_further, list_elem_of_here.
  - by left.
Defined.

Lemma filter_constant {A} (b : bool) (f : A → bool) (l : list A) :
  (∀ x, x ∈ l → f x = b) →
  filter (λ x, f x = true) l = if b then l else [].
Proof.
  intros Hf. induction l as [|x l IH]; [by destruct b|].
  rewrite filter_cons, IH by (intros y Hy; apply Hf; by apply list_elem_of_further).
  rewrite (Hf x) by apply list_elem_of_here. by destruct b.
Qed.

(** X2. A cohort whose views add up to zero is scored without a division:
    the average is 0.0, every ratio is the integer 0, and the call
    returns every record with ratio 0 when the threshold is at most 0
    and no record otherwise. *)
Theorem scoring_zero_total :
  ∀ (videos : list video) (min_ratio : num),
    videos ≠ [] →
    sum_views 0 videos = Some 0 →
    calculate_average_views videos = Some (NFloat (S754_zero false))
    ∧ Instagram.identify_viral_videos videos min_ratio
      = Some (if ge (NInt 0) min_ratio
              then (λ v : video, <["performance_ratio" := VInt 0]> v) <$> videos
              else []).
Proof.
  intros videos min_ratio Hne Hsum.
  assert (Havg : calculate_average_views videos
                 = Some (NFloat (S754_zero false))).
  { unfold calculate_average_views. destruct videos as [|v rest]; [done|].
    rewrite Hsum. simpl. unfold int_truediv.
    by destruct (Z.of_nat (length (v :: rest))) eqn:Hlen. }
  split; [done|].
  assert (Hratio : ∀ v : video, ratio_of (NFloat (S754_zero false)) v
                                = Some (NInt 0)) by done.
  unfold Instagram.identify_viral_videos.
  destruct videos as [|v rest]; [done|].
  rewrite Havg. cbn [mbind option_bind].
  rewrite (viral_loop_acc _ min_ratio (v :: rest) [])
    by (apply Forall_forall; intros w _; by rewrite Hratio).
  simpl app. f_equal.
  rewrite (filter_constant (ge (NInt 0) min_ratio))
    by (intros w _; unfold viral; by rewrite Hratio).
  destruct (ge (NInt 0) min_ratio); [|done].
  apply list_fmap_ext. intros i w _. unfold scored. by rewrite Hratio.
Qed.

Lemma scoring_zero_total_witness :
  Instagram.identify_viral_videos [rec_views 0; rec_views 0] default_min_ratio
  = Some [].
Proof.
  apply (proj2 (scoring_zero_total [rec_views 0; rec_views 0]
                  default_min_ratio ltac:(discriminate) eq_refl)).
Defined.

Lemma sum_views_perm acc (l l' : list video) :
  l ≡ₚ l' → sum_views acc l = sum_views acc l'.
Proof.
  intros Hperm. revert acc.
  induction Hperm as [|v l l' _ IH|v w l|l l' l'' _ IH _ IH']; intros acc.
  - done.
  - simpl. destruct (views_of v); [apply IH|done].
  - simpl. destruct (views_of v) as [n|], (views_of w) as [m|]; simpl; try done.
    f_equal. lia.
  - by rewrite IH.
Qed.

Lemma viral_loop_computes avg min_ratio (videos acc out : list video) :
  viral_loop avg min_ratio acc videos = Some out →
  Forall (λ v, is_Some (ratio_of avg v)) videos.
Proof.
  revert acc. induction videos as [|v rest IH]; intros acc; simpl; [done|].
  destruct (ratio_of avg v) as [ratio|] eqn:Hr; [|done]. simpl.
  intros Hloop. constructor; [by eexists|].
  destruct (ge ratio min_ratio); by eapply IH.
Qed.

(** X3. For a cohort whose views are all integers, the order of the
    cohort decides only the order of the result: integers are summed
    exactly, so a rearranged cohort has the same average and the same
    viral records with the same ratios. *)
Theorem scoring_ignores_cohort_order :
  ∀ (videos videos' out : list video) (min_ratio : num),
    Forall (λ v, ∃ n : Z, v !! "views" = Some (VInt n)) videos →
    videos ≡ₚ videos' →
    Instagram.identify_viral_videos videos min_ratio = Some out →
    calculate_average_views videos' = calculate_average_views videos
    ∧ ∃ out',
        Instagram.identify_viral_videos videos' min_ratio = Some out'
        ∧ out' ≡ₚ out.
Proof.
  intros videos videos' out min_ratio _ Hperm Hrun.
  assert (Havg : calculate_average_views videos'
                 = calculate_average_views videos).
  { unfold calculate_average_views.
    destruct videos as [|v rest], videos' as [|v' rest'].
    - done.
    - by apply Permutation_nil_l in Hperm.
    - by apply Permutation_nil_r in Hperm.
    - by rewrite (sum_views_perm 0 _ _ Hperm), (Permutation_length Hperm). }
  split; [done|].
  unfold Instagram.identify_viral_videos in *.
  destruct videos as [|v rest].
  { apply Permutation_nil_l in Hperm. subst videos'. by exists out. }
  destruct videos' as [|v' rest']; [by apply Permutation_nil_r in Hperm|].
  rewrite Havg.
  destruct (calculate_average_views (v :: rest)) as [avg|]; [|done].
  cbn [mbind option_bind] in *.
  pose proof (viral_loop_computes _ _ _ _ _ Hrun) as Hall.
  rewrite (viral_loop_acc _ _ _ [] Hall) in Hrun. injection Hrun as <-.
  rewrite (viral_loop_acc avg min_ratio (v' :: rest') [])
    by (by rewrite <- Hperm).
  eexists. split; [done|]. simpl app. by rewrite Hperm.
Qed.

Lemma scoring_ignores_cohort_order_witness :
  ∃ out',
    Instagram.identify_viral_videos
      (rec_views <$> [50000; 5000; 20000; 10000]) default_min_ratio
    = Some out'
    ∧ out' ≡ₚ [ <["performance_ratio" := VFloat float_2_4]> (rec_views 50000) ].
Proof.
  apply (scoring_ignores_cohort_order scenario_cohort).
  - unfold scenario_cohort. apply Forall_fmap, Forall_forall.
    intros n _. exists n. apply lookup_singleton_eq.
  - unfold scenario_cohort. apply fmap_Permutation.
    change [10000; 20000; 5000; 50000] with ([10000; 20000; 5000] ++ [50000]).
    rewrite (Permutation_app_comm [10000; 20000; 5000] [50000]). simpl.
    apply Permutation_skip.
    change [10000; 20000; 5000] with ([10000; 20000] ++ [5000]).
    rewrite (Permutation_app_comm [10000; 20000] [5000]). simpl.
    apply Permutation_skip, Permutation_swap.
  - by_eval.
Defined.

(** ** The top-viral selection, whatever the count *)

Lemma select_top_returns_keyed (videos : list video) count min_ratio out :
  select_top_viral_videos videos count min_ratio = Some out →
  Forall (λ v, is_Some (ratio_key v)) videos.
Proof.
  unfold select_top_viral_videos, keyed. intros Hrun.
  destruct (mapM _ videos) as [kvs|] eqn:Hkvs; [|done].
  assert (Hsome : is_Some (mapM (λ v : video, k ← ratio_key v; Some (k, v))
                             videos)) by (by eexists).
  apply mapM_is_Some_1 in Hsome.
  eapply Forall_impl; [exact Hsome|]. intros v [kv Hkv]. simpl in Hkv.
  destruct (ratio_key v); [by eexists|done].
Qed.

(** The selection as a function of the records alone. *)
Lemma select_top_ranked (videos : list video) count min_ratio :
  Forall (λ v, is_Some (ratio_key v)) videos →
  select_top_viral_videos videos count min_ratio
  = Some (slice_to count
            (snd <$> sort_desc
               ((λ v, (key_of v, v))
                  <$> filter (λ v, ge (key_of v) min_ratio = true) videos))).
Proof.
  intros Hall. unfold select_top_viral_videos.
  rewrite (keyed_entries _ Hall). cbn [mbind option_bind].
  by rewrite (filter_fmap (λ v : video, (key_of v, v))).
Qed.

Lemma snd_sort_desc_perm (videos : list video) :
  snd <$> sort_desc ((λ v, (key_of v, v)) <$> videos) ≡ₚ videos.
Proof.
  rewrite sort_desc_perm, <- list_fmap_compose.
  by rewrite <- (list_fmap_id videos) at 2.
Qed.

Lemma slice_to_submseteq {A} count (l : list A) : slice_to count l ⊆+ l.
Proof. unfold slice_to. destruct (count <? 0); apply submseteq_take. Qed.

Lemma select_top_members (videos out : list video) count min_ratio :
  select_top_viral_videos videos count min_ratio = Some out →
  out ⊆+ filter (λ v, ge (key_of v) min_ratio = true) videos
  ∧ Forall (λ v, ∃ k, ratio_key v = Some k ∧ ge k min_ratio = true) out.
Proof.
  intros Hrun.
  pose proof (select_top_returns_keyed _ _ _ _ Hrun) as Hall.
  rewrite (select_top_ranked _ _ _ Hall) in Hrun. injection Hrun as <-.
  set (viral := filter (λ v, ge (key_of v) min_ratio = true) videos).
  assert (Hsub : slice_to count
                   (snd <$> sort_desc ((λ v, (key_of v, v)) <$> viral))
                 ⊆+ viral).
  { etrans; [apply slice_to_submseteq|].
    apply Permutation_submseteq, snd_sort_desc_perm. }
  split; [done|].
  apply Forall_forall. intros v Hv.
  eapply elem_of_submseteq in Hv; [|exact Hsub].
  apply list_elem_of_filter in Hv as [Hge Hv].
  rewrite Forall_forall in Hall. destruct (Hall v Hv) as [k Hk].
  exists k. split; [done|]. unfold key_of in Hge. by rewrite Hk in Hge.
Qed.

(** X4. Whatever the count, a selection that returns hands back records of
    the input only, none more often than the input holds it, each with
    a ratio that reaches the threshold; with a count that is not
    negative it returns at most [count] of them. *)
Theorem select_top_sound :
  ∀ (videos out : list video) (count : Z) (min_ratio : num),
    select_top_viral_videos videos count min_ratio = Some out →
    out ⊆+ videos
    ∧ Forall (λ v, ∃ k, ratio_key v = Some k ∧ ge k min_ratio = true) out
    ∧ (0 ≤ count → Z.of_nat (length out) ≤ count).
Proof.
  intros videos out count min_ratio Hrun.
  destruct (select_top_members _ _ _ _ Hrun) as [Hsub Hout].
  split; [|split; [done|]].
  - etrans; [exact Hsub|]. apply sublist_submseteq, sublist_filter.
  - intros Hcount.
    pose proof (select_top_returns_keyed _ _ _ _ Hrun) as Hall.
    rewrite (select_top_ranked _ _ _ Hall) in Hrun. injection Hrun as <-.
    unfold slice_to.
    destruct (count <? 0) eqn:Hneg; [apply Z.ltb_lt in Hneg; lia|].
    rewrite length_take. lia.
Qed.

Lemma select_top_sound_witness :
  ∃ out,
    select_top_viral_videos selection_scenario 2 (NFloat float_3) = Some out
    ∧ out ⊆+ selection_scenario
    ∧ Z.of_nat (length out) ≤ 2.
Proof.
  eexists. split; [by_eval|].
  destruct (select_top_sound selection_scenario
              [ratio_record "3" float_7; ratio_record "1" float_5] 2
              (NFloat float_3)) as (Hsub & _ & Hlen); [by_eval|].
  split; [exact Hsub|apply Hlen; lia].
Defined.

(** X5. A count that covers every record reaching the threshold loses
    none: the result is then a rearrangement of exactly those
    records. *)
Theorem select_top_complete :
  ∀ (videos out : list video) (count : Z) (min_ratio : num),
    select_top_viral_videos videos count min_ratio = Some out →
    Z.of_nat (length (filter (λ v, ge (key_of v) min_ratio = true) videos))
    ≤ count →
    out ≡ₚ filter (λ v, ge (key_of v) min_ratio = true) videos.
Proof.
  intros videos out count min_ratio Hrun Hcount.
  pose proof (select_top_returns_keyed _ _ _ _ Hrun) as Hall.
  rewrite (select_top_ranked _ _ _ Hall) in Hrun. injection Hrun as <-.
  unfold slice_to.
  destruct (count <? 0) eqn:Hneg; [apply Z.ltb_lt in Hneg; lia|].
  rewrite take_ge; [apply snd_sort_desc_perm|].
  rewrite length_fmap, sort_desc_perm, length_fmap. lia.
Qed.

Lemma select_top_complete_witness :
  [ ratio_record "3" float_7; ratio_record "1" float_5;
    ratio_record "5" float_4; ratio_record "2" float_3 ]
  ≡ₚ filter (λ v, ge (key_of v) (NFloat float_3) = true) selection_scenario.
Proof.
  apply (select_top_complete selection_scenario _ 10 (NFloat float_3));
    by_eval.
Defined.

Lemma ext_lt_asym a b : ext_lt a b = true → ext_lt b a = false.
Proof.
  destruct a as [|[]|p], b as [|[]|q]; try done.
  rewrite ext_lt_fin. intros Hlt.
  destruct (ext_lt (EFin q) (EFin p)) eqn:Hgt; [|done].
  apply ext_lt_fin in Hgt. destruct (Qlt_irrefl p).
  by apply Qlt_trans with q.
Qed.

Lemma insert_desc_hd {A} (x y : num * A) s :
  not_smaller y x → HdRel not_smaller y s → HdRel not_smaller y (insert_desc x s).
Proof.
  intros Hyx Hys. destruct s as [|z s]; simpl; [by constructor|].
  apply HdRel_inv in Hys. destruct (lt x.1 z.1); by constructor.
Qed.

Lemma insert_desc_descending {A} (x : num * A) s :
  Sorted not_smaller s → Sorted not_smaller (insert_desc x s).
Proof.
  induction 1 as [|y s Hs IH Hy]; simpl; [by repeat constructor|].
  destruct (lt x.1 y.1) eqn:Hlt.
  - constructor; [done|]. apply insert_desc_hd; [|done].
    by apply ext_lt_asym.
  - by repeat constructor.
Qed.

Lemma sort_desc_descending {A} (l : list (num * A)) :
  Sorted not_smaller (sort_desc l).
Proof.
  induction l as [|x l IH]; simpl; [constructor|].
  by apply insert_desc_descending.
Qed.

(** Sorting a list that already descends changes nothing. *)
Lemma sort_desc_fixed {A} (l : list (num * A)) :
  Sorted not_smaller l → sort_desc l = l.
Proof.
  induction 1 as [|x l Hs IH Hx]; [done|].
  simpl. rewrite IH. destruct Hx as [|y l Hxy]; [done|].
  simpl. unfold not_smaller in Hxy. by rewrite Hxy.
Qed.

Lemma Sorted_take {A} (R : relation A) n (l : list A) :
  Sorted R l → Sorted R (take n l).
Proof.
  intros Hs. revert n. induction Hs as [|x l Hs IH Hx]; intros [|n]; simpl;
    try constructor; [apply IH|].
  destruct Hx as [|y l Hxy]; [by destruct n; constructor|].
  destruct n; by constructor.
Qed.

(** X6. The top [count] are the first [count] of any longer selection. *)
Theorem select_top_prefix :
  ∀ (videos longer : list video) (count count' : Z) (min_ratio : num),
    0 ≤ count ≤ count' →
    select_top_viral_videos videos count' min_ratio = Some longer →
    select_top_viral_videos videos count min_ratio
    = Some (take (Z.to_nat count) longer).
Proof.
  intros videos longer count count' min_ratio Hcount Hrun.
  pose proof (select_top_returns_keyed _ _ _ _ Hrun) as Hall.
  rewrite (select_top_ranked _ count' _ Hall) in Hrun.
  rewrite (select_top_ranked _ count _ Hall).
  injection Hrun as <-. f_equal. unfold slice_to.
  destruct (count <? 0) eqn:Hneg; [apply Z.ltb_lt in Hneg; lia|].
  destruct (count' <? 0) eqn:Hneg'; [apply Z.ltb_lt in Hneg'; lia|].
  rewrite take_take. f_equal. lia.
Qed.

Lemma select_top_prefix_witness :
  select_top_viral_videos selection_scenario 1 (NFloat float_3)
  = Some (take 1 [ ratio_record "3" float_7; ratio_record "1" float_5;
                   ratio_record "5" float_4 ]).
Proof.
  apply (select_top_prefix selection_scenario _ 1 3); [lia|by_eval].
Defined.

(** X7. Selecting again from a selection, with the same count and
    threshold, returns it unchanged: the result is already filtered,
    descending and short enough. *)
Theorem select_top_idempotent :
  ∀ (videos out : list video) (count : Z) (min_ratio : num),
    0 ≤ count →
    select_top_viral_videos videos count min_ratio = Some out →
    select_top_viral_videos out count min_ratio = Some out.
Proof.
  intros videos out count min_ratio Hcount Hrun.
  destruct (select_top_members _ _ _ _ Hrun) as [_ Hout].
  pose proof (select_top_returns_keyed _ _ _ _ Hrun) as Hall.
  rewrite (select_top_ranked _ _ _ Hall) in Hrun.
  assert (Hkeyed : Forall (λ v, is_Some (ratio_key v)) out).
  { eapply Forall_impl; [exact Hout|]. intros v (k & Hk & _). by eexists. }
  assert (Hviral : Forall (λ v, ge (key_of v) min_ratio = true) out).
  { eapply Forall_impl; [exact Hout|]. intros v (k & Hk & Hge).
    unfold key_of. by rewrite Hk. }
  rewrite (select_top_ranked _ _ _ Hkeyed), (filter_all _ _ Hviral).
  injection Hrun as Hrun. unfold slice_to in *.
  destruct (count <? 0) eqn:Hneg; [apply Z.ltb_lt in Hneg; lia|].
  set (ranked := sort_desc _) in Hrun.
  assert (Hpairs : (λ v, (key_of v, v)) <$> out = take (Z.to_nat count) ranked).
  { rewrite <- Hrun, <- fmap_take, <- list_fmap_compose.
    rewrite <- (list_fmap_id (take _ ranked)) at 2.
    apply list_fmap_ext. intros i [k v] Hi. simpl.
    apply list_elem_of_lookup_2 in Hi.
    eapply elem_of_submseteq in Hi; [|apply submseteq_take].
    unfold ranked in Hi. rewrite sort_desc_perm in Hi.
    by apply list_elem_of_fmap in Hi as (w & [= -> ->] & _). }
  rewrite Hpairs, sort_desc_fixed
    by apply Sorted_take, sort_desc_descending.
  rewrite fmap_take, take_take, Nat.min_id. by rewrite Hrun.
Qed.

Lemma select_top_idempotent_witness :
  select_top_viral_videos
    [ ratio_record "3" float_7; ratio_record "1" float_5;
      ratio_record "5" float_4 ] 3 (NFloat float_3)
  = Some [ ratio_record "3" float_7; ratio_record "1" float_5;
           ratio_record "5" float_4 ].
Proof.
  apply (select_top_idempotent selection_scenario); [lia|by_eval].
Defined.

(** X8. A record whose [performance_ratio] is present but not a number (a
    string, or null) makes the selection raise, wherever it stands and
    whatever the count; only an absent ratio is read as 0. *)
Theorem select_top_raises_on_text_ratio :
  ∀ (videos : list video) (v : video) (count : Z) (min_ratio : num),
    v ∈ videos →
    (v !! "performance_ratio" = Some VNone
     ∨ ∃ s, v !! "performance_ratio" = Some (VStr s)) →
    select_top_viral_videos videos count min_ratio = None
    ∧ ratio_key (delete "performance_ratio" v) = Some (NInt 0).
Proof.
  intros videos v count min_ratio Hin Hv. split.
  - destruct (select_top_viral_videos videos count min_ratio) as [out|] eqn:Hrun;
      [|done].
    apply select_top_returns_keyed in Hrun. rewrite Forall_forall in Hrun.
    destruct (Hrun v Hin) as [k Hk]. unfold ratio_key in Hk.
    by destruct Hv as [Hv|[s Hv]]; rewrite Hv in Hk.
  - unfold ratio_key. by rewrite lookup_delete_eq.
Qed.

Lemma select_top_raises_on_text_ratio_witness :
  select_top_viral_videos
    [ ratio_record "1" float_5; {[ "performance_ratio" := VStr "7.0" ]} ]
    0 (NFloat float_3)
  = None.
Proof.
  apply (select_top_raises_on_text_ratio _
           {[ "performance_ratio" := VStr "7.0" ]}).
  - apply list_elem_of_further, list_elem_of_here.
  - right. by exists "7.0".
Defined.

(** ** The shape of normalised records *)

Lemma youtube_get_none (v : video) :
  bool_decide (get_none v "platform" = VStr "youtube") = is_youtube v.
Proof.
  unfold is_youtube, get_none, get. apply bool_decide_ext.
  destruct (v !! "platform") as [p|]; simpl; [|done].
  split; congruence.
Qed.

Lemma dom_normalize_video now (v : video) :
  dom (normalize_video now v) = fields_of (is_youtube v).
Proof.
  unfold normalize_video. rewrite youtube_get_none.
  unfold fields_of, common_fields.
  destruct (is_youtube v); rewrite !dom_insert_L, dom_empty_L; set_solver.
Qed.

(** X9. Normalising keeps the number and order of records and gives every
    record the same nine fields, with [videoId] added exactly for the
    records whose platform is youtube; whatever else the input record
    carried is dropped. *)
Theorem normalize_fixes_the_fields :
  ∀ (clock : nat → string) (videos : list video),
    length (normalize_video_data clock videos) = length videos
    ∧ ∀ (i : nat) (v : video),
        videos !! i = Some v →
        ∃ out : video,
          normalize_video_data clock videos !! i = Some out
          ∧ dom out = fields_of (is_youtube v)
          ∧ is_youtube out = is_youtube v.
Proof.
  intros clock videos. split.
  - unfold normalize_video_data. generalize 0%nat.
    induction videos as [|v rest IH]; intros j; simpl; [done|].
    by rewrite IH.
  - intros i v Hi. exists (normalize_video (clock i) v).
    unfold normalize_video_data. rewrite normalize_from_lookup, Hi.
    split; [done|]. split; [apply dom_normalize_video|].
    rewrite <- !youtube_get_none. apply bool_decide_ext.
    apply normalize_video_youtube.
Qed.

Lemma normalize_fixes_the_fields_witness :
  ∃ out : video,
    normalize_video_data monday [raw_instagram] !! 0%nat = Some out
    ∧ dom out = common_fields
    ∧ is_youtube out = false.
Proof.
  apply (proj2 (normalize_fixes_the_fields monday [raw_instagram]) 0%nat
           raw_instagram).
  reflexivity.
Defined.

(** ** The pool of platform records and the pipeline *)

Lemma combine_step_records (fs : filesystem) dir pool p (v : video) :
  Rec v ∈ combine_step fs dir pool p
  ↔ Rec v ∈ pool
    ∨ ∃ records,
        fs !! platform_file dir p = Some (FJson (JList records)) ∧ v ∈ records.
Proof.
  unfold combine_step, load_json_data.
  destruct (fs !! platform_file dir p) as [[[records|keys|x]| |]|] eqn:Hfile;
    simpl.
  - case_bool_decide as Hempty; simpl.
    + subst records. split; [by left|]. intros [H|(r & [= <-] & H)]; [done|].
      by apply elem_of_nil in H.
    + rewrite elem_of_app, list_elem_of_fmap. split.
      * intros [H|(w & [= <-] & H)]; [by left|]. right. by exists records.
      * intros [H|(r & [= <-] & H)]; [by left|]. right. by exists v.
  - assert (Hkeys : Rec v ∉ Str <$> keys).
    { intros (k & Hk & _)%list_elem_of_fmap. discriminate Hk. }
    destruct (negb (bool_decide (keys = []))); rewrite ?elem_of_app;
      split; try tauto; by intros [|(r & [=] & _)]; try tauto.
  - assert (Hchars : ∀ s, Rec v ∉ Str <$> chars s).
    { intros s (k & Hk & _)%list_elem_of_fmap. discriminate Hk. }
    destruct x as [|b|n|f|s]; simpl;
      repeat match goal with |- context [if ?b then _ else _] => destruct b end;
      rewrite ?elem_of_app;
      (split; [|by intros [|(r & [=] & _)]; try tauto]); try tauto.
    intros [|H]; [tauto|]. by destruct (Hchars s).
  - split; [tauto|]. by intros [|(r & [=] & _)].
  - split; [tauto|]. by intros [|(r & [=] & _)].
  - split; [tauto|]. by intros [|(r & [=] & _)].
Qed.

Lemma foldl_combine_records (fs : filesystem) dir ps pool (v : video) :
  Rec v ∈ foldl (combine_step fs dir) pool ps
  ↔ Rec v ∈ pool
    ∨ ∃ p records,
        p ∈ ps ∧ fs !! platform_file dir p = Some (FJson (JList records))
        ∧ v ∈ records.
Proof.
  revert pool. induction ps as [|p ps IH]; intros pool; simpl.
  - split; [tauto|]. intros [|(p & r & Hp & _)]; [done|].
    by apply elem_of_nil in Hp.
  - rewrite IH, combine_step_records. split.
    + intros [[H|(r & Hf & Hv)]|(q & r & Hq & Hf & Hv)]; [by left| |].
      * right. exists p, r. split; [apply list_elem_of_here|done].
      * right. exists q, r. split; [by apply list_elem_of_further|done].
    + intros [H|(q & r & Hq & Hf & Hv)]; [by left; left|].
      apply elem_of_cons in Hq as [->|Hq].
      * left. right. by exists r.
      * right. by exists q, r.
Qed.

(** X10. The pool holds exactly the records of the arrays stored in the four
    platform files: every record of every such array is in it, and a
    file that is missing, unreadable, not JSON or not an array
    contributes no record. *)
Theorem pool_holds_the_platform_arrays :
  ∀ (fs : filesystem) (data_dir : string) (v : video),
    Rec v ∈ combine_platform_videos fs data_dir
    ↔ ∃ platform records,
        platform ∈ platforms
        ∧ fs !! platform_file data_dir platform = Some (FJson (JList records))
        ∧ v ∈ records.
Proof.
  intros fs data_dir v. unfold combine_platform_videos.
  rewrite foldl_combine_records. split; [|by right].
  intros [H|H]; [by apply elem_of_nil in H|done].
Qed.

Lemma pool_holds_the_platform_arrays_witness :
  Rec (viral_record "t1" "tiktok" float_7)
  ∈ combine_platform_videos platform_files "data".
Proof.
  apply pool_holds_the_platform_arrays.
  exists "tiktok", [viral_record "t1" "tiktok" float_7].
  split; [|split].
  - unfold platforms. do 2 apply list_elem_of_further. apply list_elem_of_here.
  - by_eval.
  - apply list_elem_of_here.
Defined.

Lemma records_of_pool (pool : list item) (records : list video) :
  records_of pool = Some records → pool = Rec <$> records.
Proof.
  unfold records_of. intros H%mapM_Some.
  induction H as [|it v pool records Hit _ IH]; [done|].
  destruct it; [|done]. injection Hit as ->. by rewrite IH.
Qed.

Lemma elem_of_normalize_from clock j (videos : list video) w :
  w ∈ normalize_from clock j videos →
  ∃ (i : nat) v, videos !! i = Some v ∧ w = normalize_video (clock (j + i)%nat) v.
Proof.
  intros (i & Hi)%list_elem_of_lookup_1.
  rewrite normalize_from_lookup in Hi.
  destruct (videos !! i) as [v|] eqn:Hv; [|done].
  injection Hi as <-. by exists i, v.
Qed.

(** X11. A run that goes through the pipeline returns at most ten records,
    each the normalised form of a record of a platform file whose own
    [performance_ratio] is present and at least 2.0: a platform record
    without a ratio is given 1.0 by the normaliser and so never
    selected. *)
Theorem pipeline_returns_viral_platform_records :
  ∀ (clock : nat → string) (rng : nat → draw) data_dir generate_samples
    (fs fs' : filesystem) (top : list video),
    combine_platform_videos fs data_dir ≠ [] ∨ generate_samples = Some false →
    identify_viral_videos clock rng data_dir generate_samples fs
    = (Some top, fs') →
    Z.of_nat (length top) ≤ 10
    ∧ Forall (λ w, ∃ (i : nat) (v : video) (k : num),
                Rec v ∈ combine_platform_videos fs data_dir
                ∧ w = normalize_video (clock i) v
                ∧ is_Some (v !! "performance_ratio")
                ∧ ratio_key v = Some k
                ∧ ge k (NFloat two) = true) top.
Proof.
  intros clock rng data_dir generate_samples fs fs' top Hbranch.
  unfold identify_viral_videos.
  assert (Hcond : bool_decide (combine_platform_videos fs data_dir = [])
                  && default true generate_samples = false).
  { destruct Hbranch as [Hne| ->]; [|apply andb_false_r].
    by rewrite bool_decide_eq_false_2. }
  rewrite Hcond.
  destruct (records_of _) as [records|] eqn:Hrecords; [|done].
  destruct (select_top_viral_videos _ _ _) as [out|] eqn:Hrun; [|done].
  intros [= -> _]. apply records_of_pool in Hrecords.
  destruct (select_top_members _ _ _ _ Hrun) as [Hsub Hout].
  pose proof (select_top_returns_keyed _ _ _ _ Hrun) as Hall.
  split.
  - rewrite (select_top_ranked _ _ _ Hall) in Hrun. injection Hrun as <-.
    unfold slice_to. simpl. rewrite length_take. lia.
  - apply Forall_forall. intros w Hw.
    rewrite Forall_forall in Hout. destruct (Hout w Hw) as (k & Hk & Hge).
    eapply elem_of_submseteq in Hw; [|exact Hsub].
    apply list_elem_of_filter in Hw as [_ Hw].
    apply elem_of_normalize_from in Hw as (i & v & Hi & ->).
    exists (0 + i)%nat, v, k. split.
    { rewrite Hrecords. apply list_elem_of_fmap. exists v.
      split; [done|]. by eapply list_elem_of_lookup_2. }
    split; [done|].
    unfold ratio_key in Hk |- *. rewrite normalize_video_ratio in Hk.
    unfold get in Hk.
    destruct (v !! "performance_ratio") as [x|]; simpl in Hk.
    + split; [by eexists|done].
    + injection Hk as <-. discriminate Hge.
Qed.

Lemma pipeline_returns_viral_platform_records_witness :
  Forall (λ w, ∃ (i : nat) (v : video) (k : num),
            Rec v ∈ combine_platform_videos platform_files "data"
            ∧ w = normalize_video (monday i) v
            ∧ is_Some (v !! "performance_ratio")
            ∧ ratio_key v = Some k
            ∧ ge k (NFloat two) = true)
    [ normalize_video (monday 0) (viral_record "t1" "tiktok" float_7);
      normalize_video (monday 0) (viral_record "i1" "instagram" float_3) ].
Proof.
  set (top := [ normalize_video (monday 0) (viral_record "t1" "tiktok" float_7);
                normalize_video (monday 0)
                  (viral_record "i1" "instagram" float_3) ]).
  assert (Hpool : combine_platform_videos platform_files "data" ≠ [])
    by by_eval.
  assert (Hrun : identify_viral_videos monday sample_rng "data" None
                   platform_files
                 = (Some top, generate_daily_data top "data" 0 platform_files))
    by by_eval.
  exact (proj2 (pipeline_returns_viral_platform_records _ _ _ _ _ _ _
                  (or_introl Hpool) Hrun)).
Defined.

(** ** What a run leaves in the files *)

Lemma published_twice (top : list video) (a b : string) (fs : filesystem) :
  let fs' := save_to_json top a (save_to_json top b fs) in
  fs' !! a = Some (FJson (JList top))
  ∧ fs' !! b = Some (FJson (JList top))
  ∧ ∀ path, path ≠ a → path ≠ b → fs' !! path = fs !! path.
Proof.
  unfold save_to_json. simpl. split; [apply lookup_insert_eq|]. split.
  - destruct (decide (a = b)) as [->|Hab]; [apply lookup_insert_eq|].
    rewrite lookup_insert_ne by done. apply lookup_insert_eq.
  - intros path Ha Hb. by rewrite !lookup_insert_ne.
Qed.

(** X12. Whichever branch a run takes, when it returns a list both
    [videos-0.json] and [sample-videos.json] of the data directory hold
    exactly that list afterwards and every other file is as before;
    when it raises, no file has changed. *)
Theorem run_publishes_its_result :
  ∀ (clock : nat → string) (rng : nat → draw) data_dir generate_samples
    (fs fs' : filesystem) (result : option (list video)),
    identify_viral_videos clock rng data_dir generate_samples fs
    = (result, fs') →
    match result with
    | Some top =>
        fs' !! daily_file data_dir 0 = Some (FJson (JList top))
        ∧ fs' !! sample_file data_dir = Some (FJson (JList top))
        ∧ ∀ path,
            path ≠ daily_file data_dir 0 → path ≠ sample_file data_dir →
            fs' !! path = fs !! path
    | None => fs' = fs
    end.
Proof.
  intros clock rng data_dir generate_samples fs fs' result.
  unfold identify_viral_videos, generate_sample_data, generate_daily_data.
  destruct (_ && _).
  - destruct (mapM _ _) as [drawn|]; intros [= <- <-]; [|done].
    destruct (published_twice (snd <$> sort_desc drawn)
                (daily_file data_dir 0) (sample_file data_dir) fs)
      as (Ha & Hb & Hrest).
    done.
  - destruct (records_of _) as [records|]; [|by intros [= <- <-]].
    destruct (select_top_viral_videos _ _ _) as [top|];
      intros [= <- <-]; [|done].
    destruct (published_twice top (sample_file data_dir)
                (daily_file data_dir 0) fs) as (Ha & Hb & Hrest).
    split; [done|]. split; [done|]. intros path H0 Hs. by apply Hrest.
Qed.

Lemma run_publishes_its_result_witness :
  ∃ top fs',
    identify_viral_videos monday sample_rng "data" None platform_files
    = (Some top, fs')
    ∧ fs' !! daily_file "data" 0 = Some (FJson (JList top))
    ∧ fs' !! sample_file "data" = Some (FJson (JList top)).
Proof.
  destruct (identify_viral_videos monday sample_rng "data" None platform_files)
    as [[top|] fs'] eqn:Hrun.
  - exists top, fs'. split; [done|].
    destruct (run_publishes_its_result _ _ _ _ _ _ _ Hrun) as (H0 & Hs & _).
    by split.
  - exfalso. revert Hrun. by_eval.
Defined.

(** ** Sample records *)

Lemma sample_video_shape i d k (w : video) :
  sample_video i d = Some (k, w) →
  ratio_key w = Some k
  ∧ known_platform w = true
  ∧ profile_id_of w = VNone
  ∧ dom w = fields_of (is_youtube w).
Proof.
  unfold sample_video.
  destruct (float_of_int _) as [base|]; [|done]. cbn [mbind option_bind].
  destruct (trunc_float _) as [views|]; [|done]. cbn [mbind option_bind].
  intros [= <- <-].
  destruct (dr_platform d); (split; [|split; [|split]]);
    try (by unfold ratio_key; simplify_map_eq);
    try (by unfold known_platform, is_platform, get; simplify_map_eq);
    try (by unfold profile_id_of, is_platform, get_none, get;
         simplify_map_eq);
    unfold is_youtube; simplify_map_eq; unfold fields_of, common_fields;
    rewrite !dom_insert_L, dom_empty_L; set_solver.
Qed.

Lemma keyed_pairs_fixed (pairs : list (num * video)) :
  Forall (λ kv, ratio_key kv.2 = Some kv.1) pairs →
  (λ v, (key_of v, v)) <$> (snd <$> pairs) = pairs.
Proof.
  induction 1 as [|[k v] pairs Hkv _ IH]; [done|].
  rewrite !fmap_cons, IH. simpl in *. unfold key_of. by rewrite Hkv.
Qed.

Lemma descending_records (vs : list video) :
  Sorted not_smaller ((λ v, (key_of v, v)) <$> vs) → Sorted ratio_not_smaller vs.
Proof.
  induction vs as [|v vs IH]; [constructor|].
  rewrite fmap_cons. intros [Hs Hhd]%Sorted_inv.
  constructor; [by apply IH|].
  destruct vs as [|w vs]; constructor. by apply HdRel_inv in Hhd.
Qed.

Lemma generate_sample_data_shape rng data_dir count (fs fs' : filesystem)
    (samples : list video) :
  generate_sample_data rng data_dir count fs = (Some samples, fs') →
  ∃ drawn : list (num * video),
    samples = snd <$> sort_desc drawn
    ∧ fs' = save_to_json samples (daily_file data_dir 0)
              (save_to_json samples (sample_file data_dir) fs)
    ∧ Forall (λ kv : num * video,
                ratio_key kv.2 = Some kv.1
                ∧ known_platform kv.2 = true
                ∧ profile_id_of kv.2 = VNone
                ∧ dom kv.2 = fields_of (is_youtube kv.2)) (sort_desc drawn).
Proof.
  unfold generate_sample_data.
  destruct (mapM _ _) as [drawn|] eqn:Hdrawn; [|done].
  intros [= <- <-]. exists drawn. split; [done|]. split; [done|].
  rewrite sort_desc_perm. apply mapM_Some in Hdrawn.
  induction Hdrawn as [|i [k w] turns drawn Hi _ IH]; constructor; [|done].
  by eapply sample_video_shape.
Qed.

(** X13. A sample generation that returns yields [count] records in
    descending order of ratio, each with the fields of a normalised
    record and one of the four platform names, and none with the raw
    creator field the store reads for that platform. *)
Theorem samples_are_ranked_and_normalised :
  ∀ (rng : nat → draw) data_dir (count : nat) (fs fs' : filesystem)
    (samples : list video),
    generate_sample_data rng data_dir count fs = (Some samples, fs') →
    length samples = count
    ∧ Sorted ratio_not_smaller samples
    ∧ Forall (λ w, dom w = fields_of (is_youtube w)
                   ∧ known_platform w = true
                   ∧ profile_id_of w = VNone) samples.
Proof.
  intros rng data_dir count fs fs' samples Hrun.
  split; [by eapply generate_sample_data_length|].
  apply generate_sample_data_shape in Hrun as (drawn & -> & _ & Hshape).
  split.
  - apply descending_records. rewrite keyed_pairs_fixed.
    + apply sort_desc_descending.
    + eapply Forall_impl; [exact Hshape|]. by intros kv (Hk & _).
  - apply Forall_fmap. eapply Forall_impl; [exact Hshape|].
    by intros kv (_ & Hp & Hn & Hd).
Qed.

Lemma samples_are_ranked_and_normalised_witness :
  ∃ samples,
    (generate_sample_data sample_rng "data" 3 ∅).1 = Some samples
    ∧ length samples = 3%nat
    ∧ Sorted ratio_not_smaller samples.
Proof.
  destruct (generate_sample_data sample_rng "data" 3 ∅)
    as [[samples|] fs'] eqn:Hrun.
  - exists samples. split; [done|].
    destruct (samples_are_ranked_and_normalised _ _ _ _ _ _ Hrun)
      as (Hlen & Hsorted & _).
    by split.
  - exfalso. revert Hrun. by_eval.
Defined.

(** ** From the published files into the store *)

Lemma last_cons_nonempty {A} (x d : A) l :
  l ≠ [] → List.last (x :: l) d = List.last l d.
Proof. by destruct l. Qed.

Lemma split_on_after_separator sep (dir name : string) :
  ∃ x l,
    split_on sep (dir +:+ String sep name) = x :: l
    ∧ l ≠ []
    ∧ List.last l EmptyString = List.last (split_on sep name) EmptyString.
Proof.
  induction dir as [|c dir (x & l & Hsplit & Hne & Hlast)].
  - exists EmptyString, (split_on sep name). simpl.
    rewrite bool_decide_eq_true_2 by done.
    split; [done|]. split; [|done].
    destruct name as [|c name]; simpl; [done|]. by case_bool_decide.
  - rewrite string_app_cons. simpl. rewrite Hsplit. simpl.
    case_bool_decide.
    + exists EmptyString, (x :: l). split; [done|]. split; [done|].
      by rewrite last_cons_nonempty.
    + by exists (String c x), l.
Qed.

(** The base name of a file of the data directory is its name. *)
Lemma basename_in_dir (dir name : string) :
  basename (dir +:+ String "/" name) = basename name.
Proof.
  unfold basename.
  destruct (split_on_after_separator "/" dir name) as (x & l & -> & Hne & <-).
  by apply last_cons_nonempty.
Qed.

Lemma import_unstorable_sample_file clk (fs : filesystem) data_dir listing
    (w : video) rest db :
  fs !! sample_file data_dir = Some (FJson (JList (w :: rest))) →
  profile_id_of w = VNone →
  initialize_database clk fs data_dir listing db = (Err IntegrityError, db).
Proof.
  intros Hfile Hnull. unfold initialize_database.
  change (data_dir +:+ "/sample-videos.json") with (sample_file data_dir).
  rewrite Hfile, bool_decide_eq_true_2 by (by eexists).
  unfold bind at 1. unfold bind at 1. unfold import_from_json.
  rewrite Hfile. unfold sample_file.
  rewrite (basename_in_dir data_dir "sample-videos.json").
  change (import_date clk (basename "sample-videos.json")) with (Ok (@None string)).
  unfold bind at 1. unfold add_daily_top_videos. unfold bind at 1.
  by rewrite (add_videos_first_fails clk w rest db
                (add_video_null_profile clk w db Hnull)).
Qed.

(** X14. Filling a fresh data directory with samples and then initialising
    the database from it, as the server and the deployment script do,
    raises [IntegrityError] on the first sample and stores nothing:
    samples carry [creator], never the raw creator field the store
    requires for their platform. The values of the samples are ones
    SQLite binds, as the ranges of the generator make them. *)
Theorem samples_cannot_be_imported :
  ∀ (rng : nat → draw) (clk : clock) data_dir (count : nat)
    (fs fs' : filesystem) (samples : list video) listing db,
    count ≠ 0%nat →
    generate_sample_data rng data_dir count fs = (Some samples, fs') →
    Forall (λ w, row_binds (row_of clk w) = true) samples →
    initialize_database clk fs' data_dir listing db = (Err IntegrityError, db).
Proof.
  intros rng clk data_dir count fs fs' samples listing db Hcount Hrun _.
  pose proof (generate_sample_data_length _ _ _ _ _ _ Hrun) as Hlen.
  apply generate_sample_data_shape in Hrun as (drawn & Hs & -> & Hshape).
  destruct (published_twice samples (daily_file data_dir 0)
              (sample_file data_dir) fs) as (_ & Hfile & _).
  destruct samples as [|w rest]; [by subst count|].
  eapply import_unstorable_sample_file; [exact Hfile|].
  destruct (sort_desc drawn) as [|[k w'] others]; [done|].
  injection Hs as -> _. apply Forall_cons in Hshape as [(_ & _ & Hnull & _) _].
  done.
Qed.

Lemma samples_cannot_be_imported_witness :
  ∃ fs',
    (generate_sample_data sample_rng "data" 10 ∅).2 = fs'
    ∧ initialize_database noon fs' "data"
        ["sample-videos.json"; "videos-0.json"] empty_db
      = (Err IntegrityError, empty_db).
Proof.
  destruct (generate_sample_data sample_rng "data" 10 ∅)
    as [[samples|] fs'] eqn:Hrun.
  - exists fs'. split; [done|].
    apply (samples_cannot_be_imported sample_rng noon "data" 10 ∅ fs'
             samples); [done|done|].
    replace samples
      with (default [] (generate_sample_data sample_rng "data" 10 ∅).1)
      by (by rewrite Hrun).
    apply Forall_forall. intros w Hw. revert w Hw. apply Forall_forall.
    by_eval.
  - exfalso. revert Hrun. by_eval.
Defined.

Lemma normalized_known_is_null now (v : video) :
  known_platform (normalize_video now v) = true →
  profile_id_of (normalize_video now v) = VNone.
Proof.
  destruct (normalize_video_raw_keys now v) as (Hp & Hc & Hu & Hg).
  unfold known_platform, profile_id_of, get_none, get.
  rewrite Hp, Hc, Hu, Hg. simpl.
  destruct (is_platform _ "instagram"), (is_platform _ "youtube"),
    (is_platform _ "tiktok"), (is_platform _ "facebook"); done.
Qed.

(** X15. Whenever a run returns a list whose first record names one of the
    four platforms and holds values SQLite binds, initialising the
    database from the files the run left, as the daily job does, raises
    [IntegrityError] on that record and stores nothing. *)
Theorem run_result_cannot_be_imported :
  ∀ (clock : nat → string) (rng : nat → draw) (clk : Database.clock) data_dir
    generate_samples (fs fs' : filesystem) (w : video) rest listing db,
    identify_viral_videos clock rng data_dir generate_samples fs
    = (Some (w :: rest), fs') →
    known_platform w = true →
    row_binds (row_of clk w) = true →
    initialize_database clk fs' data_dir listing db = (Err IntegrityError, db).
Proof.
  intros clock rng clk data_dir generate_samples fs fs' w rest listing db
    Hrun Hknown _.
  revert Hrun Hknown.
  unfold identify_viral_videos. destruct (_ && _).
  - intros Hrun _.
    apply generate_sample_data_shape in Hrun as (drawn & Hs & -> & Hshape).
    destruct (published_twice (w :: rest) (daily_file data_dir 0)
                (sample_file data_dir) fs) as (_ & Hfile & _).
    eapply import_unstorable_sample_file; [exact Hfile|].
    destruct (sort_desc drawn) as [|[k w'] others]; [done|].
    injection Hs as -> _.
    by apply Forall_cons in Hshape as [(_ & _ & Hnull & _) _].
  - destruct (records_of _) as [records|]; [|done].
    destruct (select_top_viral_videos _ _ _) as [top|] eqn:Hrun; [|done].
    intros [= -> <-] Hknown. unfold generate_daily_data. simpl.
    destruct (published_twice (w :: rest) (sample_file data_dir)
                (daily_file data_dir 0) fs) as (Hfile & _).
    eapply import_unstorable_sample_file; [exact Hfile|].
    destruct (select_top_members _ _ _ _ Hrun) as [Hsub _].
    assert (Hw : w ∈ normalize_video_data clock records).
    { eapply list_elem_of_filter, elem_of_submseteq; [|exact Hsub].
      apply list_elem_of_here. }
    apply elem_of_normalize_from in Hw as (i & v & _ & ->).
    by apply normalized_known_is_null.
Qed.

Lemma run_result_cannot_be_imported_witness :
  ∃ fs',
    (identify_viral_videos monday sample_rng "data" (Some false)
       platform_files).2 = fs'
    ∧ initialize_database noon fs' "data" ["videos-0.json"] empty_db
      = (Err IntegrityError, empty_db).
Proof.
  destruct (identify_viral_videos monday sample_rng "data" (Some false)
              platform_files) as [[[|w rest]|] fs'] eqn:Hrun.
  - exfalso. revert Hrun. by_eval.
  - exists fs'. split; [done|].
    assert (Hhead : (λ top, known_platform (default ∅ (head top)) = true
                            ∧ row_binds (row_of noon (default ∅ (head top)))
                              = true)
                      (w :: rest)).
    { replace (w :: rest)
        with (default [] (identify_viral_videos monday sample_rng "data"
                            (Some false) platform_files).1)
        by (by rewrite Hrun).
      by_eval. }
    destruct Hhead as [Hknown Hbinds].
    exact (run_result_cannot_be_imported _ _ _ _ _ _ _ _ _ _ _ Hrun Hknown
             Hbinds).
  - exfalso. revert Hrun. by_eval.
Defined.

(** ** The store *)

Lemma accepted_storable clk (v : video) :
  accepted clk v = true → storable clk v = true.
Proof. unfold accepted. by intros [H _]%andb_true_iff. Qed.


Lemma filter_none {A} (P : A → Prop) `{∀ x, Decision (P x)} (l : list A) :
  Forall (λ x, ¬ P x) l → filter P l = [].
Proof.
  induction 1 as [|x l Hx _ IH]; [done|].
  by rewrite filter_cons_False.
Qed.



Lemma rank_all_split date rank (vs : list video) table :
  rank_all date rank vs table
  = filter (λ r, ¬ (r_date r = date ∧ r_video_id r ∈ id_of <$> vs)) table
    ++ rank_all date rank vs [].
Proof.
  revert rank table. induction vs as [|v rest IH]; intros rank table.
  - simpl. rewrite app_nil_r. symmetry. apply filter_all, Forall_forall.
    intros r _ [_ Hin]. by apply elem_of_nil in Hin.
  - cbn [rank_all]. rewrite (IH _ (replace_ranking _ table)).
    rewrite (IH _ (replace_ranking _ [])).
    unfold replace_ranking. rewrite filter_nil, app_nil_l, filter_app.
    rewrite <- app_assoc. f_equal.
    rewrite list_filter_filter. apply list_filter_iff. intros r.
    rewrite same_ranking_false, fmap_cons, elem_of_cons. simpl.
    split; [|intros H; split].
    + intros [Hrest Hv] [Hd [Hid|Hin]]; [by apply Hv|by apply Hrest].
    + intros [Hd Hin]. apply H. split; [done|by right].
    + intros [Hd Hid]. apply H. split; [done|by left].
Qed.

Lemma rank_all_again date rank rank' (vs : list video) table :
  rank_all date rank vs (rank_all date rank' vs table)
  = filter (λ r, ¬ (r_date r = date ∧ r_video_id r ∈ id_of <$> vs)) table
    ++ rank_all date rank vs [].
Proof.
  rewrite (rank_all_split _ rank), (rank_all_split _ rank' _ table).
  rewrite filter_app, list_filter_filter. f_equal.
  rewrite (filter_none _ (rank_all date rank' vs [])).
  - rewrite app_nil_r. apply list_filter_iff. tauto.
  - apply Forall_forall. intros r Hr Hfree. apply Hfree.
    apply elem_of_rank_all in Hr as [[Hr _]|(i & v & Hi & -> & _)];
      [by apply elem_of_nil in Hr|].
    split; [done|]. simpl. apply list_elem_of_fmap. exists v.
    split; [done|]. by eapply list_elem_of_lookup_2.
Qed.

Lemma accepted_clock clk clk' (v : video) :
  accepted clk v = true → storable clk' v = true.
Proof.
  intros H%accepted_storable. unfold storable in *.
  apply andb_true_iff in H as [Hok ->]. rewrite andb_true_r.
  unfold video_row_ok, row_of in *. simpl in *.
  apply negb_true_iff in Hok. apply negb_true_iff.
  repeat (apply orb_false_iff in Hok as [Hok ?]).
  repeat (apply orb_false_iff; split); try done.
  unfold get in *. by destruct (v !! "post_date").
Qed.

(** X17. Importing the same list again for the same date, at whatever time
    of day, leaves the ranking table exactly as the first import left
    it: the same rows in the same order. *)
Theorem reimport_keeps_the_rankings :
  ∀ clk clk' (vs : list video) (date : option string) db,
    Forall (λ v, accepted clk v = true) vs →
    (date = None → today clk' = today clk) →
    ∃ db1 db2,
      add_daily_top_videos clk vs date db = (Ok (), db1)
      ∧ add_daily_top_videos clk' vs date db1 = (Ok (), db2)
      ∧ daily_top_videos db2 = daily_top_videos db1.
Proof.
  intros clk clk' vs date db Hacc Hday.
  assert (Hs : Forall (λ v, storable clk v = true) vs).
  { eapply Forall_impl; [exact Hacc|]. intros v. apply accepted_storable. }
  assert (Hs' : Forall (λ v, storable clk' v = true) vs).
  { eapply Forall_impl; [exact Hacc|]. intros v. apply accepted_clock. }
  assert (Hdate : default (isoformat (today clk')) date
                  = default (isoformat (today clk)) date).
  { destruct date; [done|]. simpl. by rewrite Hday. }
  unfold add_daily_top_videos. rewrite Hdate.
  set (d := default (isoformat (today clk)) date).
  destruct (add_videos_ok clk vs db Hs) as [t1 Ht1].
  destruct (add_videos_ok clk' vs
              {| videos := t1;
                 daily_top_videos := rank_all d 1 vs (daily_top_videos db) |}
              Hs') as [t2 Ht2].
  simpl in Ht2.
  exists {| videos := t1;
            daily_top_videos := rank_all d 1 vs (daily_top_videos db) |}.
  exists {| videos := t2;
            daily_top_videos := rank_all d 1 vs (daily_top_videos db) |}.
  unfold bind at 1. rewrite Ht1, (add_rankings_ok clk) by done.
  split; [done|].
  unfold bind at 1. rewrite Ht2, (add_rankings_ok clk') by done.
  simpl. by rewrite rank_all_again, <- rank_all_split.
Qed.

Lemma reimport_keeps_the_rankings_witness :
  ∃ db1 db2,
    add_daily_top_videos noon [stored "b"; stored "a"; stored "b"] None empty_db
    = (Ok (), db1)
    ∧ add_daily_top_videos noon [stored "b"; stored "a"; stored "b"] None db1
      = (Ok (), db2)
    ∧ daily_top_videos db2 = daily_top_videos db1.
Proof.
  apply (reimport_keeps_the_rankings noon noon); [|done].
  repeat constructor; by_eval.
Defined.

Lemma add_videos_app clk (pre post : list video) db :
  add_videos clk (pre ++ post) db
  = bind (add_videos clk pre) (λ _, add_videos clk post) db.
Proof.
  revert db. induction pre as [|v pre IH]; intros db; [done|].
  simpl. unfold bind.
  destruct (add_video clk v db) as [[[]|e] db1]; [|done].
  rewrite IH. by unfold bind.
Qed.

Lemma add_videos_rows clk (vs : list video) db :
  Forall (λ v, row_accepted clk v = true) vs →
  ∃ table,
    add_videos clk vs db
    = (Ok (), {| videos := table; daily_top_videos := daily_top_videos db |}).
Proof.
  intros Hall. revert db.
  induction Hall as [|v rest Hv _ IH]; intros db; simpl.
  - exists (videos db). by destruct db.
  - unfold bind, add_video. unfold row_accepted in Hv.
    apply andb_true_iff in Hv as [-> _].
    destruct (IH {| videos := replace_video (row_of clk v) (videos db);
                    daily_top_videos := daily_top_videos db |}) as [t Ht].
    exists t. by rewrite Ht.
Qed.

(** X18. An import is not atomic. When the first record the [videos] table
    rejects, for a NULL in a [NOT NULL] column, comes after records it
    accepts, the call raises
    [IntegrityError] and leaves the store as storing those earlier
    records alone leaves it: their videos are kept, and no ranking is
    written for any record. *)
Theorem failed_import_keeps_earlier_videos :
  ∀ clk (pre post : list video) (bad : video) (date : option string) db,
    Forall (λ v, row_accepted clk v = true) pre →
    video_row_ok (row_of clk bad) = false →
    row_binds (row_of clk bad) = true →
    ∃ db',
      add_daily_top_videos clk (pre ++ bad :: post) date db
      = (Err IntegrityError, db')
      ∧ add_videos clk pre db = (Ok (), db')
      ∧ daily_top_videos db' = daily_top_videos db.
Proof.
  intros clk pre post bad date db Hpre Hbad _.
  destruct (add_videos_rows clk pre db Hpre) as [table Hrun].
  eexists. split; [|split; [exact Hrun|done]].
  unfold add_daily_top_videos. unfold bind at 1.
  rewrite add_videos_app. unfold bind at 1. rewrite Hrun.
  simpl. unfold bind at 1. unfold add_video. by rewrite Hbad.
Qed.

Lemma failed_import_keeps_earlier_videos_witness :
  ∃ db',
    add_daily_top_videos noon [stored "a"; orphan "b"; stored "c"] None empty_db
    = (Err IntegrityError, db')
    ∧ add_videos noon [stored "a"] empty_db = (Ok (), db')
    ∧ daily_top_videos db' = [].
Proof.
  apply (failed_import_keeps_earlier_videos noon [stored "a"] [stored "c"]
           (orphan "b") None empty_db).
  - repeat constructor; by_eval.
  - by_eval.
  - by_eval.
Defined.







(** ** File names and dates *)

Lemma import_date_overflow clk (n : N) (rest : string) :
  ends_offset rest →
  today clk - Z.of_N n < min_ordinal →
  import_date clk ("videos-" +:+ pretty n +:+ rest) = Err OverflowError.
Proof.
  intros Hrest Hlow.
  destruct (pretty_N_digits n) as (Hds & Hne & Hparse).
  destruct (offset_text_digits _ _ Hds Hrest) as (Hstart & Hpart & Hhd).
  unfold import_date. rewrite Hstart, Hpart, Hhd.
  rewrite py_int_digits, Hparse by done.
  apply Z.leb_gt in Hlow. by rewrite Hlow.
Qed.

(** X20. A snapshot whose name carries an offset that reaches back before
    the first day of the calendar is not imported: [import_from_json]
    raises [OverflowError], which it does not handle, and stores
    nothing. The offset is one [int] converts, of at most 4300
    digits. *)
Theorem import_offset_before_calendar :
  ∀ clk (fs : filesystem) path vs (n : N) rest db,
    fs !! path = Some (FJson (JList vs)) →
    basename path = "videos-" +:+ pretty n +:+ rest →
    ends_offset rest →
    today clk - Z.of_N n < min_ordinal →
    Z.of_N n < 10 ^ 4300 →
    import_from_json clk fs path db = (Err OverflowError, db).
Proof.
  intros clk fs path vs n rest db Hfile Hname Hrest Hlow _.
  unfold import_from_json. rewrite Hfile, Hname.
  by rewrite import_date_overflow.
Qed.

Lemma import_offset_before_calendar_witness :
  import_from_json noon
    {[ "data/videos-739355.json" := FJson (JList [stored "a"]) ]}
    "data/videos-739355.json" empty_db
  = (Err OverflowError, empty_db).
Proof.
  apply (import_offset_before_calendar noon _ _ [stored "a"] 739355%N ".json").
  - reflexivity.
  - by_eval.
  - right. exists "json". by left.
  - by vm_compute.
  - by vm_compute.
Defined.

Lemma split_on_free sep (s : string) :
  free_of sep s = true → split_on sep s = [s].
Proof.
  induction s as [|c s IH]; [done|]. simpl.
  intros [Hc Hs]%andb_true_iff. rewrite IH by done.
  apply negb_true_iff in Hc. by rewrite Hc.
Qed.

Lemma free_of_app sep (a b : string) :
  free_of sep a = true → free_of sep b = true → free_of sep (a +:+ b) = true.
Proof.
  intros Ha Hb. induction a as [|c a IH]; [done|].
  rewrite string_app_cons. simpl in *.
  apply andb_true_iff in Ha as [-> Ha]. by apply IH.
Qed.

Lemma free_of_digits sep (ds : string) :
  digit_of sep = None → digits_only ds = true → free_of sep ds = true.
Proof.
  intros Hsep. induction ds as [|c ds IH]; [done|]. simpl.
  destruct (digit_of c) eqn:Hc; [|done]. intros Hds.
  rewrite bool_decide_eq_false_2 by (intros ->; congruence).
  by apply IH.
Qed.

Lemma pretty_Z_of_N (n : N) : pretty (Z.of_N n) = pretty n.
Proof. by destruct n. Qed.

Lemma basename_daily_file data_dir (tail : string) :
  free_of "/" tail = true →
  basename (data_dir +:+ "/videos-" +:+ tail) = "videos-" +:+ tail.
Proof.
  intros Htail.
  change (data_dir +:+ "/videos-" +:+ tail)
    with (data_dir +:+ String "/" ("videos-" +:+ tail)).
  rewrite basename_in_dir. unfold basename.
  by rewrite split_on_free by (by apply (free_of_app _ "videos-")).
Qed.

Lemma lookup_generate_daily_data (top : list video) data_dir day_offset
    (fs : filesystem) :
  generate_daily_data top data_dir day_offset fs !! daily_file data_dir day_offset
  = Some (FJson (JList top)).
Proof.
  unfold generate_daily_data. destruct (day_offset =? 0).
  - by destruct (published_twice top (sample_file data_dir)
                   (daily_file data_dir day_offset) fs) as (_ & H & _).
  - apply lookup_insert_eq.
Qed.

(** X21. What [generate_daily_data] writes for a day offset,
    [import_from_json] reads back from the same path and ranks that
    many days before the current date, when the offset is not negative
    and the day is in the calendar. A negative offset gives a name with
    two dashes, whose list is ranked under the current date. *)
Theorem daily_file_round_trip :
  ∀ clk (top : list video) data_dir (fs : filesystem) db,
    (∀ n : N,
       min_ordinal ≤ today clk - Z.of_N n ≤ max_ordinal →
       import_from_json clk (generate_daily_data top data_dir (Z.of_N n) fs)
         (daily_file data_dir (Z.of_N n)) db
       = bind (add_daily_top_videos clk top
                 (Some (isoformat (today clk - Z.of_N n))))
              (λ _, ret (Z.of_nat (length top))) db)
    ∧ (∀ day_offset,
         day_offset < 0 →
         import_from_json clk (generate_daily_data top data_dir day_offset fs)
           (daily_file data_dir day_offset) db
         = bind (add_daily_top_videos clk top None)
                (λ _, ret (Z.of_nat (length top))) db).
Proof.
  intros clk top data_dir fs db. split.
  - intros n Hrange. unfold import_from_json.
    rewrite lookup_generate_daily_data. unfold daily_file.
    rewrite pretty_Z_of_N.
    destruct (pretty_N_digits n) as (Hds & _ & _).
    rewrite basename_daily_file
      by (apply free_of_app; [by apply free_of_digits|done]).
    rewrite import_date_of_offset; [done| |done].
    right. exists "json". by left.
  - intros [|p|p] Hneg; try lia. unfold import_from_json.
    rewrite lookup_generate_daily_data. unfold daily_file.
    change (pretty (Z.neg p)) with ("-" +:+ pretty (N.pos p)).
    destruct (pretty_N_digits (N.pos p)) as (Hds & _ & _).
    rewrite basename_daily_file.
    + rewrite import_date_fallback; [done|]. by right.
    + rewrite string_app_assoc.
      apply (free_of_app _ "-"); [done|].
      apply free_of_app; [by apply free_of_digits|done].
Qed.

Lemma daily_file_round_trip_witness :
  import_from_json noon (generate_daily_data [stored "a"] "data" 3 ∅)
    "data/videos-3.json" empty_db
  = bind (add_daily_top_videos noon [stored "a"] (Some "2025-04-11"))
         (λ _, ret 1) empty_db.
Proof.
  apply (proj1 (daily_file_round_trip noon [stored "a"] "data" ∅ empty_db) 3%N).
  by vm_compute.
Defined.
